(** * Leadership Lab: the progressive-reveal controller and the drill-down grid

    A shallow embedding of the curriculum page of the Leadership Lab web
    application (the page component under [src/pages] that defines
    [buildRevealItems], [SessionContentDisplay], [CognizanceGridSection],
    [Curriculum] and [SessionCard]) and of the article page [ArticleDetail],
    together with the record types of [src/types/index.ts].

    Conventions of the embedding.
    - A JavaScript number that the page only ever uses as a counter or an index
      is a [Z].  The progress-bar width, the one place where the page divides,
      is computed as the page computes it, on binary64 numbers
      ([Binary64.progressWidth]); the exact rational that the formula of the
      specification denotes ([widthAsSpecified]) is only what it is compared
      with.
    - A JavaScript string is a [string]: the sequence of its code units, for
      strings all of whose code units are below 256.  [===] on strings is
      [String.eqb].
    - An optional field [f?: T] is an [option T]; an array is a [list].
    - React state is passed explicitly: a handler is a function from the state
      it closes over to the state it sets. *)

From Stdlib Require Import ZArith QArith Qabs Lia List String Ascii Bool SpecFloat.
From stdpp Require Import base gmap strings list.
Import ListNotations.
Local Open Scope string_scope.
Local Open Scope list_scope.
Local Open Scope Z_scope.

(** ** The fragment of the JavaScript string library the page uses *)

Module JS.

(** Truthiness of a string: only the empty string is falsy. *)
Definition truthy (s : string) : bool := negb (String.eqb s "").

(** [s.startsWith(search)]. *)
Definition startsWith (s search : string) : bool := String.prefix search s.

(** Drop the first [n] code units. *)
Fixpoint drop (n : nat) (s : string) : string :=
  match n, s with
  | O, _ => s
  | S _, EmptyString => EmptyString
  | S n', String _ s' => drop n' s'
  end.

(** [s.replace(pattern, replacement)] with a string pattern: the first
    occurrence of [pattern], scanning from the left, is replaced; a string
    without an occurrence is returned as it is.  (The page only passes the
    replacement [''], which has no [$] escapes.) *)
Fixpoint replace (s pattern replacement : string) : string :=
  if String.prefix pattern s
  then replacement ++ drop (String.length pattern) s
  else match s with
       | EmptyString => EmptyString
       | String c s' => String c (replace s' pattern replacement)
       end.

(** [s.includes(search)]: [search] occurs somewhere in [s]. *)
Fixpoint includes (s search : string) : bool :=
  String.prefix search s
  || match s with
     | EmptyString => false
     | String _ s' => includes s' search
     end.

(** The class [\d]: the ten ASCII digits. *)
Definition isDigit (c : ascii) : bool :=
  let n := nat_of_ascii c in (48 <=? n)%nat && (n <=? 57)%nat.

(** The class [\s] on code units below 256: tab, line feed, vertical tab,
    form feed, carriage return, space and no-break space. *)
Definition isSpace (c : ascii) : bool :=
  let n := nat_of_ascii c in
  ((9 <=? n)%nat && (n <=? 13)%nat) || (n =? 32)%nat || (n =? 160)%nat.

(** [arr.find(pred)] on an optional array, as in [arr?.find(pred)]. *)
Definition find_opt {A} (pred : A -> bool) (arr : option (list A)) : option A :=
  match arr with
  | Some l => List.find pred l
  | None => None
  end.

(** [arr.forEach((x, i) => ...)] where the callback updates a store [S]:
    the elements are visited in order with their index. *)
Fixpoint forEachFrom {A S} (callback : S -> A -> Z -> S) (i : Z)
         (arr : list A) (st : S) : S :=
  match arr with
  | [] => st
  | x :: arr' => forEachFrom callback (i + 1) arr' (callback st x i)
  end.

Definition forEach {A S} (callback : S -> A -> Z -> S) (arr : list A) (st : S) : S :=
  forEachFrom callback 0 arr st.

(** [items.push(x)]. *)
Definition push {A} (items : list A) (x : A) : list A := items ++ [x].

(** [arr.length]. *)
Definition len {A} (arr : list A) : Z := Z.of_nat (List.length arr).

End JS.

(** ** The regular expression [/^\d+\.\s/]

    One or more digits, a dot, one white-space unit, anchored at the start.
    After the longest run of digits the next unit must be the dot, which is
    not a digit, so a shorter run can never match: the match is unique. *)

Module Numbered.

Fixpoint skipDigits (s : string) : string :=
  match s with
  | String c s' => if JS.isDigit c then skipDigits s' else s
  | EmptyString => EmptyString
  end.

(** The text after the match, when the expression matches. *)
Definition exec (s : string) : option string :=
  match s with
  | String c s' =>
      if JS.isDigit c then
        match skipDigits s' with
        | String "."%char (String w rest) =>
            if JS.isSpace w then Some rest else None
        | _ => None
        end
      else None
  | EmptyString => None
  end.

(** [/^\d+\.\s/.test(s)]. *)
Definition test (s : string) : bool :=
  match exec s with Some _ => true | None => false end.

(** [s.replace(/^\d+\.\s/, '')]. *)
Definition strip (s : string) : string :=
  match exec s with Some rest => rest | None => s end.

End Numbered.

(** ** The records of [src/types/index.ts] *)

Inductive FourCCategory := Communication | Customer | Cognizance | Charisma.

Module SessionResource.
Record t := mk { title : string; url : string; source : option string }.
End SessionResource.

Module Introspection.
Record t := mk { title : string; prompts : list string }.
End Introspection.

Module Article.
Record t := mk {
  number : Z;
  title : string;
  date : string;
  topics : list string;
  sessions : list string;
  relevance : gmap string string;
  content : option string;
  inCurriculum : option bool
}.
End Article.

Module Session.
Record t := mk {
  id : string;
  name : string;
  day : Z;
  time : string;
  fourC : FourCCategory;
  coreTopics : list string;
  articles : list Z;
  hasContent : bool;
  emptyReason : option string;
  description : option string;
  discussionPoints : option (list string);
  introspections : option (list Introspection.t);
  resources : option (list SessionResource.t)
}.
End Session.

(** ** The reveal sequence *)

Inductive RevealItem :=
| Description (text : string)
| CoreTopics (topics : list string)
| DiscussionPoint (text : string) (index total : Z)
| IntrospectionBlock (data : Introspection.t)
| Resources (data : list SessionResource.t)
| Articles.

(** [buildRevealItems]: the statements of the source, one [let] each. *)
Definition buildRevealItems (session : Session.t) : list RevealItem :=
  let items := [] in
  let items :=
    match Session.description session with
    | Some text => if JS.truthy text then JS.push items (Description text) else items
    | None => items
    end in
  let items := JS.push items (CoreTopics (Session.coreTopics session)) in
  let items :=
    match Session.discussionPoints session with
    | Some dps =>
        JS.forEach (fun items text i =>
                      JS.push items (DiscussionPoint text i (JS.len dps)))
                   dps items
    | None => items
    end in
  let items :=
    match Session.introspections session with
    | Some intros =>
        JS.forEach (fun items intro (_ : Z) => JS.push items (IntrospectionBlock intro))
                   intros items
    | None => items
    end in
  let items :=
    match Session.resources session with
    | Some res => if 0 <? JS.len res then JS.push items (Resources res) else items
    | None => items
    end in
  let items :=
    if 0 <? JS.len (Session.articles session) then JS.push items Articles else items in
  items.

(** ** "Video Break:" discussion points

    Both call sites (the grouping loop of [SessionContentDisplay] and the
    [discussionPoint] case of [SessionCard]'s [renderItem]) compute the same
    two values from the text of a point. *)

Definition isVideoBreak (text : string) : bool :=
  JS.startsWith text "Video Break:".

Definition videoResource (session : Session.t) (text : string)
  : option SessionResource.t :=
  if isVideoBreak text
  then JS.find_opt
         (fun r => String.eqb (SessionResource.title r)
                              (JS.replace text "Video Break: " ""))
         (Session.resources session)
  else None.

(** ** [SessionContentDisplay]: grouping of the discussion points *)

Module Grouped.
Record t := mk {
  point : string;
  children : list string;
  isVideoBreak : bool;
  videoResource : option SessionResource.t
}.
End Grouped.

(** The points the component works on: the session's points, filtered when
    the caller passed [filterDiscussionPoints]; none when the field is absent. *)
Definition displayedPoints (session : Session.t)
           (filterDiscussionPoints : option (string -> bool)) : list string :=
  match Session.discussionPoints session with
  | Some dps =>
      match filterDiscussionPoints with
      | Some f => List.filter f dps
      | None => dps
      end
  | None => []
  end.

(** The filter [CognizanceGridSection] passes for the "metrics" session. *)
Definition filterMetricsDiscussionPoints (dp : string) : bool :=
  if JS.includes dp "7 Tiny Daily Habits" then false
  else if Numbered.test dp then false
  else true.

(** The inner [while]: as long as the next point matches [/^\d+\.\s/] it is
    pushed, without its number, onto [children] and the index moves on.  The
    result is [children] and the points the outer loop has still to visit. *)
Fixpoint collectChildren (following : list string) : list string * list string :=
  match following with
  | next :: rest =>
      if Numbered.test next
      then let '(children, remaining) := collectChildren rest in
           (Numbered.strip next :: children, remaining)
      else ([], following)
  | [] => ([], [])
  end.

(** The outer [for]: [points] is [discussionPoints] from index [i] on.  Every
    round consumes at least one point, so a fuel of [length points] rounds
    runs the loop to its end (see [groupPoints_cons]). *)
Fixpoint groupLoop (fuel : nat) (session : Session.t) (points : list string)
  : list Grouped.t :=
  match fuel, points with
  | S fuel', point :: following =>
      let '(children, remaining) := collectChildren following in
      Grouped.mk point children (isVideoBreak point) (videoResource session point)
        :: groupLoop fuel' session remaining
  | _, _ => []
  end.

Definition groupPoints (session : Session.t) (points : list string) : list Grouped.t :=
  groupLoop (List.length points) session points.

(** What one entry of [grouped] is rendered as. *)
Inductive GroupView :=
| GroupVideoLink (href text : string)
| GroupCard (currentNum : Z) (text : string) (children : list (Z * string)).

Definition renderGroup (gIdx : Z) (item : Grouped.t) : GroupView :=
  let currentNum := gIdx + 1 in
  match Grouped.isVideoBreak item, Grouped.videoResource item with
  | true, Some r => GroupVideoLink (SessionResource.url r) (Grouped.point item)
  | _, _ =>
      GroupCard currentNum (Grouped.point item)
                (imap (fun cIdx child => (Z.of_nat cIdx + 1, child)) (Grouped.children item))
  end.

Definition discussionPointsView (session : Session.t)
           (filterDiscussionPoints : option (string -> bool)) : list GroupView :=
  imap (fun gIdx item => renderGroup (Z.of_nat gIdx) item)
       (groupPoints session (displayedPoints session filterDiscussionPoints)).

(** ** [SessionCard]: what an item of the reveal sequence is rendered as *)

Inductive Emphasis := Emphasized | Dimmed.

Inductive ItemView :=
| DescriptionView (text : string)
| CoreTopicsView (topics : list string)
| VideoLink (href text : string)
| PlainPoint (number : Z) (text : string)
| IntrospectionView (title : string) (prompts : list string)
| ResourcesView (data : list SessionResource.t)
| ArticleCards (found : list Article.t)
| NoArticlesNotice (emptyReason : option string).

Definition getArticleById (articles : list Article.t) (id : Z) : option Article.t :=
  List.find (fun a => Article.number a =? id) articles.

Definition isCurrent (idx step : Z) : bool := idx =? step - 1.
Definition isPast (idx step : Z) : bool := idx <? step - 1.
Definition isVisible (idx step : Z) : bool := idx <? step.

Definition itemView (session : Session.t) (articles : list Article.t)
           (item : RevealItem) : ItemView :=
  match item with
  | Description text => DescriptionView text
  | CoreTopics topics => CoreTopicsView topics
  | DiscussionPoint text index _ =>
      match isVideoBreak text, videoResource session text with
      | true, Some r => VideoLink (SessionResource.url r) text
      | _, _ => PlainPoint (index + 1) text
      end
  | IntrospectionBlock data =>
      IntrospectionView (Introspection.title data) (Introspection.prompts data)
  | Resources data => ResourcesView data
  | Articles =>
      if Session.hasContent session
      then ArticleCards (omap (getArticleById articles) (Session.articles session))
      else NoArticlesNotice
             (match Session.emptyReason session with
              | Some reason => if JS.truthy reason then Some reason else None
              | None => None
              end)
  end.

(** [renderItem]: nothing for an item that is not visible yet; otherwise the
    item's view, emphasized when it is the current one and dimmed when not
    (the styling only ever tests [isCurrent]). *)
Definition renderItem (session : Session.t) (articles : list Article.t) (step : Z)
           (item : RevealItem) (idx : Z) : option (Emphasis * ItemView) :=
  if negb (isVisible idx step) then None
  else Some (if isCurrent idx step then Emphasized else Dimmed,
             itemView session articles item).

(** ** [SessionCard]: the reveal state and its handlers

    [step] is the component's state, [totalSteps] the length of the reveal
    sequence.  A handler is the function from the state of the render it was
    created in to the state it sets. *)

Module SessionCard.

Definition totalSteps (session : Session.t) : Z := JS.len (buildRevealItems session).

Definition initialStep : Z := 0.

Definition allRevealed (totalSteps step : Z) : bool := totalSteps <=? step.

Definition advance (totalSteps step : Z) : Z :=
  if step <? totalSteps then step + 1 else step.

Definition goBack (step : Z) : Z :=
  if 0 <? step then step - 1 else step.

Definition revealAll (totalSteps step : Z) : Z := totalSteps.

(** The effect on [isExpanded]: [if (!isExpanded) setStep(0)]. *)
Definition collapseEffect (isExpanded : bool) (step : Z) : Z :=
  if negb isExpanded then 0 else step.

(** The [keydown] listener (attached only while the card is expanded). *)
Definition keydown (totalSteps : Z) (key : string) (step : Z) : Z :=
  if String.eqb key "ArrowRight" || String.eqb key " "
  then Z.min (step + 1) totalSteps
  else if String.eqb key "ArrowLeft"
       then Z.max (step - 1) 0
       else step.

End SessionCard.

(** ** [Curriculum]: expanding and collapsing a card

    The page keeps the set of expanded session ids; a card is expanded when
    its session's id is in the set.  The card's effect on [isExpanded] runs
    after every render in which [isExpanded] differs from the previous one. *)

Definition toggleSession (sessionId : string) (expandedSessions : gset string)
  : gset string :=
  if bool_decide (sessionId ∈ expandedSessions)
  then expandedSessions ∖ {[ sessionId ]}
  else expandedSessions ∪ {[ sessionId ]}.

Module Page.

(** The part of the page state one card depends on. *)
Record t := mk { expandedSessions : gset string; step : Z }.

Definition initial : t := mk ∅ SessionCard.initialStep.

Definition isExpanded (session : Session.t) (page : t) : bool :=
  bool_decide (Session.id session ∈ expandedSessions page).

(** The input events that reach the card of [session].  The content area,
    the buttons and the key listener exist only while the card is expanded. *)
Inductive Event :=
| ToggleClick (sessionId : string)
| AdvanceClick
| BackClick
| ShowAllClick
| KeyDown (key : string).

Definition handle (session : Session.t) (ev : Event) (page : t) : t :=
  let total := SessionCard.totalSteps session in
  let expanded := isExpanded session page in
  match ev with
  | ToggleClick sessionId =>
      let expandedSessions' := toggleSession sessionId (expandedSessions page) in
      let expanded' := bool_decide (Session.id session ∈ expandedSessions') in
      mk expandedSessions'
         (if eqb expanded expanded' then step page
          else SessionCard.collapseEffect expanded' (step page))
  | AdvanceClick =>
      if expanded
      then mk (expandedSessions page) (SessionCard.advance total (step page))
      else page
  | BackClick =>
      if expanded
      then mk (expandedSessions page) (SessionCard.goBack (step page))
      else page
  | ShowAllClick =>
      if expanded && negb (SessionCard.allRevealed total (step page))
      then mk (expandedSessions page) (SessionCard.revealAll total (step page))
      else page
  | KeyDown key =>
      if expanded
      then mk (expandedSessions page) (SessionCard.keydown total key (step page))
      else page
  end.

Definition run (session : Session.t) (evs : list Event) (page : t) : t :=
  fold_left (fun p ev => handle session ev p) evs page.

End Page.

(** ** The transitions of the reveal state, one constructor per operation *)

Inductive RevealStep (totalSteps : Z) : Z -> Z -> Prop :=
| step_advance step : RevealStep totalSteps step (SessionCard.advance totalSteps step)
| step_goBack step : RevealStep totalSteps step (SessionCard.goBack step)
| step_revealAll step : RevealStep totalSteps step (SessionCard.revealAll totalSteps step)
| step_reset step : RevealStep totalSteps step (SessionCard.collapseEffect false step)
| step_keydown key step :
    RevealStep totalSteps step (SessionCard.keydown totalSteps key step).

Inductive RevealReachable (totalSteps : Z) : Z -> Prop :=
| reach_initial : RevealReachable totalSteps SessionCard.initialStep
| reach_step step step' :
    RevealReachable totalSteps step ->
    RevealStep totalSteps step step' ->
    RevealReachable totalSteps step'.

Definition RevealInvariant (totalSteps step : Z) : Prop := 0 <= step <= totalSteps.

(** ** [CognizanceGridSection]: the drill-down navigator *)

Inductive CognizanceSection :=
| grid | culture | goals_ack | colleagues_env | next6 | budget | politics | network.

(** The clusters of [GRID_CELLS], cell by cell. *)
Definition GRID_CELLS : list (string * CognizanceSection) :=
  [ ("Culture", culture); ("Goals", goals_ack); ("The ACK Model", goals_ack);
    ("Environment", colleagues_env); ("Competition", colleagues_env);
    ("Development", next6); ("Strengths", next6); ("Opportunities", next6);
    ("Colleagues", colleagues_env); ("Budget", budget);
    ("Career", next6); ("Accolades", next6); ("Mistakes", next6);
    ("Politics", politics); ("Network", network) ].

Module Grid.

(** What a handler asks of the presentation layer besides the new state. *)
Inductive Request := ScrollIntoView.

Definition initial : CognizanceSection := grid.

Definition goBackToGrid (activeSection : CognizanceSection)
  : CognizanceSection * list Request :=
  (grid, [ScrollIntoView]).

Definition openSection (section : CognizanceSection) (activeSection : CognizanceSection)
  : CognizanceSection * list Request :=
  (section, [ScrollIntoView]).

Definition isGrid (s : CognizanceSection) : bool :=
  match s with grid => true | _ => false end.

(** The clicks the two views offer: the cells in the grid view, the
    back buttons in a section view. *)
Inductive Click := CellClick (idx : nat) | BackClick.

Definition click (c : Click) (activeSection : CognizanceSection)
  : CognizanceSection * list Request :=
  match c with
  | CellClick idx =>
      if isGrid activeSection
      then match GRID_CELLS !! idx with
           | Some cell => openSection (snd cell) activeSection
           | None => (activeSection, [])
           end
      else (activeSection, [])
  | BackClick =>
      if isGrid activeSection then (activeSection, [])
      else goBackToGrid activeSection
  end.

End Grid.

(** ** [SessionCard]: the progress-bar width

    The expression [totalSteps > 0 ? (step / totalSteps) * 100 : 0] on IEEE
    754 doubles, with the operations of [SpecFloat] at precision 53 and
    maximal exponent 1024; [inRange] is the comparison
    [0 <= width && width <= 100] on doubles. *)

Module Binary64.

Definition prec : Z := 53.
Definition emax : Z := 1024.

Definition ofZ (z : Z) : spec_float := binary_normalize prec emax z 0 false.

Definition progressWidth (totalSteps step : Z) : spec_float :=
  if 0 <? totalSteps
  then SFmul prec emax (SFdiv prec emax (ofZ step) (ofZ totalSteps)) (ofZ 100)
  else ofZ 0.

Definition inRange (width : spec_float) : bool :=
  SFleb (ofZ 0) width && SFleb width (ofZ 100).

(** The value of a binary64 number: [m * 2 ^ e] with its sign for a finite
    number, and 0 for the two zeros (infinities and NaN have no value; they
    are read as 0 and excluded where a value is stated). *)
Definition toQ (x : spec_float) : Q :=
  match x with
  | S754_finite s m e =>
      let z := if s then Z.neg m else Z.pos m in
      match e with
      | Z0 => inject_Z z
      | Z.pos p => inject_Z (z * Z.pos (2 ^ p))
      | Z.neg p => Qmake z (2 ^ p)
      end
  | _ => 0%Q
  end.

End Binary64.

(** *** What the rounding of [SpecFloat] works on *)

(** A shift record stands for the rational [N / D]: its mantissa is the
    integer part, the round bit says whether the fraction reaches one half,
    the sticky bit whether anything is left beyond that. *)
Definition Represents (mrs : shr_record) (N D : Z) : Prop :=
  let mD := shr_m mrs * D in
  0 < D
  /\ 0 <= shr_m mrs
  /\ mD <= N < mD + D
  /\ (shr_r mrs = true <-> 2 * mD + D <= 2 * N)
  /\ (shr_s mrs = false <-> (N = mD \/ 2 * N = 2 * mD + D)).

(** A location says where the number lies between two mantissas. *)
Definition Located (l : location) (x N D : Z) : Prop :=
  match l with
  | loc_Exact => N = x
  | loc_Inexact Lt => x < N /\ 2 * N < 2 * x + D
  | loc_Inexact Eq => 2 * N = 2 * x + D
  | loc_Inexact Gt => 2 * x + D < 2 * N
  end.

(** The exponent of the binary64 format for a number of magnitude [e]. *)
Abbreviation fexp64 := (fexp Binary64.prec Binary64.emax).

(** The outcome of rounding a number that is not negative and at most
    [K < 2 ^ k], given with exponent [ex]: zero, or a positive finite number
    [m * 2 ^ e] that is at most [K], with [e] no larger than [ex] and
    [k - 53]. *)
Definition AtMost (K k ex : Z) (r : spec_float) : Prop :=
  r = S754_zero false
  \/ exists m e,
      r = S754_finite false m e
      /\ e <= Z.max ex (k - 53)
      /\ Z.pos m <= K * 2 ^ (- e).

(** [Within r N D k]: the binary64 number [r], zero or positive with an
    exponent that is not positive, differs from the rational [N / D] by at
    most [2 ^ (- k)]. *)
Definition Within (r : spec_float) (N D k : Z) : Prop :=
  match r with
  | S754_zero false => 2 ^ k * Z.abs N <= D
  | S754_finite false m e =>
      e <= 0 /\ 2 ^ k * Z.abs (Z.pos m * D - N * 2 ^ (- e)) <= D * 2 ^ (- e)
  | _ => False
  end.

(** The width as the specification words it, an exact rational:
    [(step / totalSteps) * 100] when [totalSteps > 0], and 0 otherwise.  It
    is what [Binary64.progressWidth], the page's own computation, is compared
    with. *)
Definition widthAsSpecified (totalSteps step : Z) : Q :=
  if 0 <? totalSteps
  then (inject_Z step / inject_Z totalSteps * 100)%Q
  else 0%Q.

(** ** The reveal sequence in closed form

    [sequenceWith desc session] is the sequence the specification describes,
    for a description item decided by [desc]: the description (if any), the
    core topics, the discussion points with their index and their number, the
    introspection blocks, the resources as one item (if any), the article
    marker (if any).  A missing optional list counts as empty. *)

Definition orEmpty {A} (arr : option (list A)) : list A := default [] arr.

Definition sequenceWith (desc : option string) (session : Session.t) : list RevealItem :=
  let dps := orEmpty (Session.discussionPoints session) in
  let intros := orEmpty (Session.introspections session) in
  let res := orEmpty (Session.resources session) in
  match desc with Some text => [Description text] | None => [] end
  ++ [CoreTopics (Session.coreTopics session)]
  ++ imap (fun i text => DiscussionPoint text (Z.of_nat i) (JS.len dps)) dps
  ++ List.map IntrospectionBlock intros
  ++ (if 0 <? JS.len res then [Resources res] else [])
  ++ (if 0 <? JS.len (Session.articles session) then [Articles] else []).

Definition lengthWith (desc : option string) (session : Session.t) : Z :=
  (match desc with Some _ => 1 | None => 0 end)
  + 1
  + JS.len (orEmpty (Session.discussionPoints session))
  + JS.len (orEmpty (Session.introspections session))
  + (if 0 <? JS.len (orEmpty (Session.resources session)) then 1 else 0)
  + (if 0 <? JS.len (Session.articles session) then 1 else 0).

(** The description the sequence shows: the field, when it is present and
    not the empty string. *)
Definition shownDescription (session : Session.t) : option string :=
  match Session.description session with
  | Some text => if JS.truthy text then Some text else None
  | None => None
  end.

(** Sessions used as concrete inputs. *)
Definition sessionWith (description : option string)
           (discussionPoints : option (list string))
           (resources : option (list SessionResource.t)) : Session.t :=
  {| Session.id := "trust"; Session.name := "Building Trust"; Session.day := 1;
     Session.time := "09:00"; Session.fourC := Communication;
     Session.coreTopics := ["Trust"]; Session.articles := [];
     Session.hasContent := false; Session.emptyReason := None;
     Session.description := description;
     Session.discussionPoints := discussionPoints;
     Session.introspections := None;
     Session.resources := resources |}.

Definition groupingExample : list string :=
  ["Point A"; "1. Sub one"; "2. Sub two"; "Point B"].

(** The sequence and its length as the specification states them: a
    description item whenever the field is present. *)
Definition sequenceAsSpecified (session : Session.t) : list RevealItem :=
  sequenceWith (Session.description session) session.

Definition lengthAsSpecified (session : Session.t) : Z :=
  lengthWith (Session.description session) session.

(** The look-up key as the specification states it: the text of the point
    without the marker it begins with. *)
Definition keyAsSpecified (text : string) : string :=
  JS.drop (String.length "Video Break:") text.

Definition resolvedAsSpecified (session : Session.t) (text : string)
  : option SessionResource.t :=
  JS.find_opt (fun r => String.eqb (SessionResource.title r) (keyAsSpecified text))
              (Session.resources session).

Definition trustVideo : SessionResource.t :=
  {| SessionResource.title := "Trust";
     SessionResource.url := "https://example.org/trust";
     SessionResource.source := None |}.

Definition isDiscussionPoint (item : RevealItem) : bool :=
  match item with DiscussionPoint _ _ _ => true | _ => false end.

Definition unnumbered (text : string) : bool := negb (Numbered.test text).

Definition emptyDescriptionSession : Session.t := sessionWith (Some "") None None.

Definition groupingSession : Session.t := sessionWith None (Some groupingExample) None.

Definition videoSession : Session.t :=
  sessionWith None
              (Some ["Video Break: Trust"; "Video Break:Trust"; "Why trust matters"])
              (Some [trustVideo]).

(** The three tiers an observer can tell apart in what [renderItem] returns. *)
Inductive Tier := Invisible | Past | Current.

Definition tierOf (rendered : option (Emphasis * ItemView)) : Tier :=
  match rendered with
  | None => Invisible
  | Some (Dimmed, _) => Past
  | Some (Emphasized, _) => Current
  end.

(** * The rest of the curriculum and article pages *)

(** ** More of the JavaScript array library *)

Module Arr.

(** [arr.includes(x)] on numbers and on strings. *)
Definition includes (arr : list Z) (x : Z) : bool := existsb (Z.eqb x) arr.

Definition includesStr (arr : list string) (x : string) : bool :=
  existsb (String.eqb x) arr.

(** [arr.findIndex(pred)]: the index of the first element that satisfies
    [pred], and [-1] when there is none. *)
Fixpoint findIndexFrom {A} (pred : A -> bool) (i : Z) (arr : list A) : Z :=
  match arr with
  | [] => -1
  | x :: arr' => if pred x then i else findIndexFrom pred (i + 1) arr'
  end.

Definition findIndex {A} (pred : A -> bool) (arr : list A) : Z :=
  findIndexFrom pred 0 arr.

(** [arr[i]] for an integer [i]: nothing outside the array. *)
Definition get {A} (arr : list A) (i : Z) : option A :=
  if i <? 0 then None else arr !! Z.to_nat i.

(** [arr.slice(0, n)]. *)
Definition slice0 {A} (n : nat) (arr : list A) : list A := firstn n arr.

End Arr.

(** ** [SessionCard]: the rendered sequence and the controls *)

Module Controls.

(** [revealItems.map((item, idx) => renderItem(item, idx))]. *)
Definition rendered (session : Session.t) (articles : list Article.t) (step : Z)
  : list (option (Emphasis * ItemView)) :=
  imap (fun idx item => renderItem session articles step item (Z.of_nat idx))
       (buildRevealItems session).

(** The label of the advance button. *)
Definition advanceLabel (totalSteps step : Z) : string :=
  if step =? 0 then "Start"
  else if SessionCard.allRevealed totalSteps step then "Complete"
       else "Next".

Definition advanceDisabled (totalSteps step : Z) : bool :=
  SessionCard.allRevealed totalSteps step.

Definition backDisabled (step : Z) : bool := step =? 0.

(** "Show all" is rendered only while something is still hidden. *)
Definition showAllShown (totalSteps step : Z) : bool :=
  negb (SessionCard.allRevealed totalSteps step).

(** The "Click here or press Space to begin" hint. *)
Definition beginHintShown (step : Z) : bool := step =? 0.

End Controls.

(** ** [SessionContentDisplay]: the blocks it shows *)

Inductive Block :=
| HeaderBlock (name time : string)
| DescriptionBlock (text : string)
| CoreTopicsBlock (topics : list string)
| DiscussionBlock (points : list GroupView)
| IntrospectionsBlock (data : list Introspection.t)
| ResourcesBlock (data : list SessionResource.t)
| ArticlesBlock (found : list Article.t)
| EmptyNoticeBlock (emptyReason : string).

(** The blocks in the order of the markup, each under its own guard. *)
Definition contentBlocks (session : Session.t) (articles : list Article.t)
           (filterDiscussionPoints : option (string -> bool)) : list Block :=
  let discussionPoints := displayedPoints session filterDiscussionPoints in
  [HeaderBlock (Session.name session) (Session.time session)]
  ++ match Session.description session with
     | Some text => if JS.truthy text then [DescriptionBlock text] else []
     | None => []
     end
  ++ (if 0 <? JS.len (Session.coreTopics session)
      then [CoreTopicsBlock (Session.coreTopics session)] else [])
  ++ (if 0 <? JS.len discussionPoints
      then [DiscussionBlock (discussionPointsView session filterDiscussionPoints)]
      else [])
  ++ match Session.introspections session with
     | Some intros => if 0 <? JS.len intros then [IntrospectionsBlock intros] else []
     | None => []
     end
  ++ match Session.resources session with
     | Some res => if 0 <? JS.len res then [ResourcesBlock res] else []
     | None => []
     end
  ++ (if Session.hasContent session && (0 <? JS.len (Session.articles session))
      then [ArticlesBlock (omap (getArticleById articles) (Session.articles session))]
      else [])
  ++ (if negb (Session.hasContent session)
         && (JS.len (Session.articles session) =? 0)
      then match Session.emptyReason session with
           | Some reason => if JS.truthy reason then [EmptyNoticeBlock reason] else []
           | None => []
           end
      else []).

(** The kinds of content the two presentations of a session have in common. *)
Inductive Kind :=
| KDescription | KCoreTopics | KDiscussion | KIntrospection | KResources | KArticles.

Definition itemKind (item : RevealItem) : Kind :=
  match item with
  | Description _ => KDescription
  | CoreTopics _ => KCoreTopics
  | DiscussionPoint _ _ _ => KDiscussion
  | IntrospectionBlock _ => KIntrospection
  | Resources _ => KResources
  | Articles => KArticles
  end.

Definition blockKind (block : Block) : option Kind :=
  match block with
  | HeaderBlock _ _ => None
  | DescriptionBlock _ => Some KDescription
  | CoreTopicsBlock _ => Some KCoreTopics
  | DiscussionBlock _ => Some KDiscussion
  | IntrospectionsBlock _ => Some KIntrospection
  | ResourcesBlock _ => Some KResources
  | ArticlesBlock _ => Some KArticles
  | EmptyNoticeBlock _ => None
  end.

(** ** [Curriculum]: which sessions are shown as cards *)

Module Curriculum.

Definition fourCName (c : FourCCategory) : string :=
  match c with
  | Communication => "Communication"
  | Customer => "Customer"
  | Cognizance => "Cognizance"
  | Charisma => "Charisma"
  end.

Definition isCognizance (s : Session.t) : bool :=
  String.eqb (fourCName (Session.fourC s)) "Cognizance".

Definition cognizanceSessions (sessions : list Session.t) : list Session.t :=
  List.filter isCognizance sessions.

Definition nonCognizanceSessions (sessions : list Session.t) : list Session.t :=
  List.filter (fun s => negb (isCognizance s)) sessions.

(** [filter] is the name on the selected filter button. *)
Definition filteredNonCognizance (filter : string) (sessions : list Session.t)
  : list Session.t :=
  if String.eqb filter "All"
  then nonCognizanceSessions sessions
  else List.filter (fun s => String.eqb (fourCName (Session.fourC s)) filter)
                   (nonCognizanceSessions sessions).

Definition showCognizanceGrid (filter : string) : bool :=
  String.eqb filter "All" || String.eqb filter "Cognizance".

Definition gridShown (filter : string) (sessions : list Session.t) : bool :=
  showCognizanceGrid filter && (0 <? JS.len (cognizanceSessions sessions)).

(** The cards in page order: those of day 1, then (after the grid) those of
    day 2. *)
Definition cards (filter : string) (sessions : list Session.t) : list Session.t :=
  List.filter (fun s => Session.day s =? 1) (filteredNonCognizance filter sessions)
  ++ List.filter (fun s => Session.day s =? 2) (filteredNonCognizance filter sessions).

End Curriculum.

(** ** [ArticleDetail]: what the page derives from the loaded data *)

Module ArticleDetail.

(** [articlesData.find(a => a.number === Number(id))], for a route
    parameter that reads as the integer [id]. *)
Definition foundArticle (articlesData : list Article.t) (id : Z) : option Article.t :=
  List.find (fun a => Article.number a =? id) articlesData.


Definition sharesSession (article a : Article.t) : bool :=
  existsb (fun s => Arr.includesStr (Article.sessions article) s) (Article.sessions a).

Definition relatedArticles (allArticles : list Article.t) (article : Article.t)
  : list Article.t :=
  Arr.slice0 3
    (List.filter (fun a => negb (Article.number a =? Article.number article)
                           && sharesSession article a)
                 allArticles).

Definition currentIndex (allArticles : list Article.t) (article : Article.t) : Z :=
  Arr.findIndex (fun a => Article.number a =? Article.number article) allArticles.

Definition prevArticle (allArticles : list Article.t) (article : Article.t)
  : option Article.t :=
  let currentIndex := currentIndex allArticles article in
  if 0 <? currentIndex then Arr.get allArticles (currentIndex - 1) else None.

Definition nextArticle (allArticles : list Article.t) (article : Article.t)
  : option Article.t :=
  let currentIndex := currentIndex allArticles article in
  if currentIndex <? JS.len allArticles - 1
  then Arr.get allArticles (currentIndex + 1)
  else None.

Definition inCurriculum (article : Article.t) : bool :=
  0 <? JS.len (Article.sessions article).

(** The key under which the relevance of an article for a session is looked
    up: [session.id.replace('-', '_')]. *)
Definition relevanceKey (sessionId : string) : string :=
  JS.replace sessionId "-" "_".

End ArticleDetail.

(** ** Further definitions used in the properties below *)

(** A card that is at step 0 whenever it is collapsed. *)
Definition Fresh (session : Session.t) (page : Page.t) : Prop :=
  Page.isExpanded session page = false -> Page.step page = 0.

(** A string of digits only. *)
Fixpoint allDigits (s : string) : bool :=
  match s with
  | EmptyString => true
  | String c s' => JS.isDigit c && allDigits s'
  end.

(** The texts a list of groups shows, heads and children in page order. *)
Definition shownTexts (groups : list Grouped.t) : list string :=
  flat_map (fun g => Grouped.point g :: Grouped.children g) groups.

(** Articles and a session used as concrete inputs. *)
Definition articleWith (number : Z) (title : string) (sessions : list string)
  : Article.t :=
  {| Article.number := number; Article.title := title;
     Article.date := "12 March 2024"; Article.topics := ["Leadership"];
     Article.sessions := sessions; Article.relevance := ∅;
     Article.content := None; Article.inCurriculum := None |}.

Definition library : list Article.t :=
  [articleWith 4 "Listening" ["trust"];
   articleWith 7 "Candour" ["trust"; "feedback"];
   articleWith 9 "Metrics" ["goals"]].


(** No two articles of a list carry the same number. *)
Definition UniqueNumbers (articles : list Article.t) : Prop :=
  List.NoDup (List.map Article.number articles).

(** The condition under which a session is shown as a card. *)
Definition shownAsCard (filter : string) (s : Session.t) : bool :=
  negb (Curriculum.isCognizance s)
  && (String.eqb filter "All"
      || String.eqb (Curriculum.fourCName (Session.fourC s)) filter)
  && ((Session.day s =? 1) || (Session.day s =? 2)).

(** ** [CognizanceGridSection]: the sessions of a section view *)

Module Sections.

(** [sessions.find(s => s.id === id)]. *)
Definition getSession (sessions : list Session.t) (id : string) : option Session.t :=
  List.find (fun s => String.eqb (Session.id s) id) sessions.

(** The session ids a section view asks for, in the order of the markup,
    each with the filter passed to [SessionContentDisplay]. *)
Definition requested (activeSection : CognizanceSection)
  : list (string * option (string -> bool)) :=
  match activeSection with
  | culture => [("culture", None)]
  | goals_ack => [("goals", None);
                  ("metrics", Some filterMetricsDiscussionPoints);
                  ("creating-value", None)]
  | colleagues_env => [("colleagues", None); ("competition", None);
                       ("environment", None)]
  | budget => [("budget", None)]
  | politics => [("politics", None)]
  | grid | next6 | network => []
  end.

(** The sessions a section view displays: those it asks for and finds. *)
Definition displayed (sessions : list Session.t) (activeSection : CognizanceSection)
  : list (Session.t * option (string -> bool)) :=
  omap (fun request =>
          match getSession sessions (fst request) with
          | Some s => Some (s, snd request)
          | None => None
          end)
       (requested activeSection).

(** The ids some section view asks for. *)
Definition knownIds : list string :=
  ["culture"; "goals"; "metrics"; "creating-value"; "colleagues"; "competition";
   "environment"; "budget"; "politics"].

End Sections.

(** A Cognizance session under an id no section view asks for. *)
Definition strayCognizanceSession : Session.t :=
  {| Session.id := "mindset"; Session.name := "Mindset"; Session.day := 1;
     Session.time := "11:00"; Session.fourC := Cognizance;
     Session.coreTopics := ["Awareness"]; Session.articles := [];
     Session.hasContent := false; Session.emptyReason := None;
     Session.description := None; Session.discussionPoints := None;
     Session.introspections := None; Session.resources := None |}.

(** The external link a view consists of, if it is one: its target and its
    text. *)
Definition groupLink (view : GroupView) : option (string * string) :=
  match view with
  | GroupVideoLink href text => Some (href, text)
  | GroupCard _ _ _ => None
  end.

Definition itemLink (view : ItemView) : option (string * string) :=
  match view with
  | VideoLink href text => Some (href, text)
  | _ => None
  end.

(** The link a discussion point stands for, by the two values both call
    sites compute from its text. *)
Definition pointLink (session : Session.t) (text : string) : option (string * string) :=
  match isVideoBreak text, videoResource session text with
  | true, Some r => Some (SessionResource.url r, text)
  | _, _ => None
  end.

(** * Properties *)

(** ** Arrays *)

Lemma forEachFrom_push {A B} (f : A -> Z -> B) (arr : list A) (i : Z) (items : list B) :
  JS.forEachFrom (fun items x i => JS.push items (f x i)) i arr items
  = items ++ imap (fun k x => f x (i + Z.of_nat k)) arr.
Proof.
  revert i items.
  induction arr as [|x arr IH]; intros i items; simpl.
  - by rewrite app_nil_r.
  - rewrite IH. unfold JS.push. rewrite <- app_assoc. simpl.
    f_equal. rewrite Z.add_0_r. f_equal.
    apply imap_ext. intros k y _. simpl. f_equal. lia.
Qed.

Lemma forEach_push {A B} (f : A -> Z -> B) (arr : list A) (items : list B) :
  JS.forEach (fun items x i => JS.push items (f x i)) arr items
  = items ++ imap (fun k x => f x (Z.of_nat k)) arr.
Proof.
  unfold JS.forEach. rewrite forEachFrom_push. f_equal.
Qed.

Lemma len_app {A} (l k : list A) : JS.len (l ++ k) = JS.len l + JS.len k.
Proof. unfold JS.len. rewrite length_app. lia. Qed.

Lemma len_nonneg {A} (l : list A) : 0 <= JS.len l.
Proof. unfold JS.len. lia. Qed.

(** ** The reveal sequence *)

Lemma buildRevealItems_closed (session : Session.t) :
  buildRevealItems session = sequenceWith (shownDescription session) session.
Proof.
  unfold buildRevealItems, sequenceWith, shownDescription.
  destruct session as [id name day time fourC topics arts has reason desc dps intros res].
  simpl.
  assert (Hdesc : forall items : list RevealItem,
             match desc with
             | Some text => if JS.truthy text then JS.push items (Description text) else items
             | None => items
             end
             = items ++ match (match desc with
                               | Some text => if JS.truthy text then Some text else None
                               | None => None
                               end) with
                        | Some text => [Description text]
                        | None => []
                        end).
  { intros items. destruct desc as [text|]; [destruct (JS.truthy text)|];
      unfold JS.push; by rewrite ?app_nil_r. }
  rewrite Hdesc. clear Hdesc. simpl.
  set (d := match match desc with
                  | Some text => if JS.truthy text then Some text else None
                  | None => None
                  end with
            | Some text => [Description text]
            | None => []
            end).
  assert (Hdps : forall (l : list string) (items : list RevealItem),
             JS.forEach (fun items text i =>
                           JS.push items (DiscussionPoint text i (JS.len l))) l items
             = items ++ imap (fun i text => DiscussionPoint text (Z.of_nat i) (JS.len l)) l).
  { intros l items.
    apply (forEach_push (fun text i => DiscussionPoint text i (JS.len l))). }
  assert (Hintros : forall (l : list Introspection.t) (items : list RevealItem),
             JS.forEach (fun items intro (_ : Z) =>
                           JS.push items (IntrospectionBlock intro)) l items
             = items ++ List.map IntrospectionBlock l).
  { intros l items.
    rewrite (forEach_push (fun intro (_ : Z) => IntrospectionBlock intro)).
    f_equal. apply (imap_const IntrospectionBlock). }
  unfold orEmpty.
  destruct dps as [dps|]; destruct intros as [intros|]; destruct res as [res|];
    simpl; rewrite ?Hdps, ?Hintros; unfold JS.push;
    repeat match goal with
           | |- context [if ?b then _ else _] => destruct b
           end;
    rewrite <- ?app_assoc; simpl; rewrite ?app_nil_r; reflexivity.
Qed.

(** The sequence [buildRevealItems] returns has the length of the closed form. *)
Lemma length_sequenceWith (desc : option string) (session : Session.t) :
  JS.len (sequenceWith desc session) = lengthWith desc session.
Proof.
  unfold sequenceWith, lengthWith.
  rewrite !len_app.
  destruct desc; repeat case_match; unfold JS.len; simpl;
    rewrite ?length_imap, ?length_map; lia.
Qed.

(** C1 (as amended).  For every session, [buildRevealItems] returns, in this
    order: a description item if the description is present and not the empty
    string, one core-topics item, one discussion-point item per discussion
    point in source order (carrying its index and the number of points), one
    introspection item per introspection block in source order, one resources
    item if there is at least one resource, one articles marker if there is at
    least one article; and its length is the sum of these counts. *)
Theorem buildRevealItems_order (session : Session.t) :
  buildRevealItems session = sequenceWith (shownDescription session) session
  /\ JS.len (buildRevealItems session) = lengthWith (shownDescription session) session.
Proof.
  split.
  - apply buildRevealItems_closed.
  - rewrite buildRevealItems_closed. apply length_sequenceWith.
Qed.

(** C1 (as stated) fails for a session whose description is the empty string:
    the field is present, yet no description item is emitted and the sequence
    is one item shorter than stated. *)
Lemma buildRevealItems_empty_description :
  Session.description emptyDescriptionSession = Some ""
  /\ buildRevealItems emptyDescriptionSession = [CoreTopics ["Trust"]]
  /\ sequenceAsSpecified emptyDescriptionSession = [Description ""; CoreTopics ["Trust"]]
  /\ buildRevealItems emptyDescriptionSession <> sequenceAsSpecified emptyDescriptionSession
  /\ JS.len (buildRevealItems emptyDescriptionSession) = 1
  /\ lengthAsSpecified emptyDescriptionSession = 2.
Proof. repeat split. discriminate. Qed.

(** With a description that is absent or not empty the sequence is the
    specified one. *)
Lemma buildRevealItems_as_specified (session : Session.t) :
  Session.description session <> Some "" ->
  buildRevealItems session = sequenceAsSpecified session.
Proof.
  intros Hd. rewrite buildRevealItems_closed.
  unfold sequenceAsSpecified, shownDescription. f_equal.
  destruct (Session.description session) as [text|]; [|done].
  unfold JS.truthy. destruct (String.eqb_spec text ""); [congruence|done].
Qed.

(** ** Grouping of the discussion points *)

Lemma collectChildren_shorter (following : list string) :
  (List.length (snd (collectChildren following)) <= List.length following)%nat.
Proof.
  induction following as [|next rest IH]; simpl; [lia|].
  destruct (Numbered.test next); simpl; [|lia].
  destruct (collectChildren rest) as [children remaining]. simpl in *. lia.
Qed.

(** Any fuel that covers the points gives the same groups. *)
Lemma groupLoop_fuel (session : Session.t) (fuel : nat) :
  forall (fuel' : nat) (points : list string),
    (List.length points <= fuel)%nat ->
    (List.length points <= fuel')%nat ->
    groupLoop fuel session points = groupLoop fuel' session points.
Proof.
  induction fuel as [|fuel IH]; intros fuel' points Hlen Hlen'.
  - destruct points; [by destruct fuel'|simpl in Hlen; lia].
  - destruct points as [|point following]; [by destruct fuel'|].
    destruct fuel' as [|fuel']; [simpl in Hlen'; lia|].
    simpl. pose proof (collectChildren_shorter following) as Hs.
    destruct (collectChildren following) as [children remaining]. simpl in *.
    f_equal. apply IH; lia.
Qed.

(** One round of the outer loop. *)
Lemma groupPoints_cons (session : Session.t) (point : string) (following : list string) :
  groupPoints session (point :: following)
  = Grouped.mk point (fst (collectChildren following))
               (isVideoBreak point) (videoResource session point)
      :: groupPoints session (snd (collectChildren following)).
Proof.
  unfold groupPoints. simpl.
  pose proof (collectChildren_shorter following) as Hs.
  destruct (collectChildren following) as [children remaining]. simpl in *.
  f_equal. apply groupLoop_fuel; lia.
Qed.

Lemma groupPoints_nil (session : Session.t) : groupPoints session [] = [].
Proof. reflexivity. Qed.

(** Induction along the rounds of the outer loop. *)
Lemma group_rounds_ind (P : list string -> Prop) :
  P [] ->
  (forall point following,
      P (snd (collectChildren following)) -> P (point :: following)) ->
  forall points, P points.
Proof.
  intros Hnil Hcons points.
  remember (List.length points) as n eqn:Hn.
  revert points Hn.
  induction (lt_wf n) as [n _ IH]. intros points Hn. subst n.
  destruct points as [|point following]; [exact Hnil|].
  apply Hcons. eapply IH; [|reflexivity].
  pose proof (collectChildren_shorter following). simpl. lia.
Qed.

(** The inner loop takes exactly the run of numbered points. *)
Lemma collectChildren_run (kids post : list string) :
  Forall (fun s => Numbered.test s = true) kids ->
  (forall q post', post = q :: post' -> Numbered.test q = false) ->
  collectChildren (kids ++ post) = (List.map Numbered.strip kids, post).
Proof.
  intros Hkids Hpost.
  induction Hkids as [|kid kids Hkid _ IH]; simpl.
  - destruct post as [|q post']; [reflexivity|].
    simpl. by rewrite (Hpost q post' eq_refl).
  - by rewrite Hkid, IH.
Qed.

(** A point without a number stops the inner loop, whatever precedes it. *)
Lemma collectChildren_stop (before : list string) (parent : string) (rest : list string) :
  Numbered.test parent = false ->
  collectChildren (before ++ parent :: rest)
  = (fst (collectChildren before), snd (collectChildren before) ++ parent :: rest).
Proof.
  intros Hparent.
  induction before as [|next before IH]; simpl.
  - by rewrite Hparent.
  - destruct (Numbered.test next); [|reflexivity].
    rewrite IH. by destruct (collectChildren before).
Qed.

Lemma groupPoints_app (session : Session.t) (parent : string) (rest : list string) :
  Numbered.test parent = false ->
  forall pre,
    groupPoints session (pre ++ parent :: rest)
    = groupPoints session pre ++ groupPoints session (parent :: rest).
Proof.
  intros Hparent pre.
  induction pre as [|point following IH] using group_rounds_ind; [reflexivity|].
  rewrite <- app_comm_cons.
  rewrite (groupPoints_cons session point following).
  rewrite (groupPoints_cons session point (following ++ parent :: rest)).
  rewrite (collectChildren_stop _ _ _ Hparent).
  cbn [fst snd]. rewrite IH. reflexivity.
Qed.

(** What the inner loop leaves starts with a point without a number, and
    has the same such points as the list it was given. *)
Lemma collectChildren_rest (following : list string) :
  List.filter unnumbered (snd (collectChildren following)) = List.filter unnumbered following
  /\ (forall q rest, snd (collectChildren following) = q :: rest -> Numbered.test q = false).
Proof.
  induction following as [|next rest IH]; simpl.
  - split; [reflexivity|discriminate].
  - unfold unnumbered at 2. destruct (Numbered.test next) eqn:Hnext; simpl.
    + destruct (collectChildren rest) as [children remaining]. simpl in *. exact IH.
    + unfold unnumbered at 1. rewrite Hnext. simpl. split; [reflexivity|].
      intros q rest' [= <- _]. exact Hnext.
Qed.

Lemma groupPoints_points (session : Session.t) (points : list string) :
  List.map Grouped.point (groupPoints session points)
  = match points with
    | [] => []
    | first :: rest => first :: List.filter unnumbered rest
    end.
Proof.
  induction points as [|point following IH] using group_rounds_ind; [reflexivity|].
  rewrite groupPoints_cons. cbn [List.map Grouped.point]. f_equal.
  rewrite IH. destruct (collectChildren_rest following) as [Hfilter Hhead].
  rewrite <- Hfilter.
  destruct (snd (collectChildren following)) as [|q remaining]; [reflexivity|].
  simpl. unfold unnumbered at 2. by rewrite (Hhead q remaining eq_refl).
Qed.

Lemma filter_imap_all {A B} (p : B -> bool) (l : list A) :
  forall f : nat -> A -> B,
    (forall i x, p (f i x) = true) -> List.filter p (imap f l) = imap f l.
Proof.
  induction l as [|x l IH]; intros f Hp; [reflexivity|].
  simpl. rewrite Hp. f_equal. apply IH. intros i y. apply Hp.
Qed.

Lemma filter_map_none {A B} (p : B -> bool) (g : A -> B) (l : list A) :
  (forall x, p (g x) = false) -> List.filter p (List.map g l) = [].
Proof.
  intros Hp. induction l as [|x l IH]; [reflexivity|].
  simpl. by rewrite Hp.
Qed.

(** [buildRevealItems] keeps every discussion point as an item of its own. *)
Lemma buildRevealItems_points (session : Session.t) :
  let dps := orEmpty (Session.discussionPoints session) in
  List.filter isDiscussionPoint (buildRevealItems session)
  = imap (fun i text => DiscussionPoint text (Z.of_nat i) (JS.len dps)) dps.
Proof.
  intros dps. rewrite buildRevealItems_closed. unfold sequenceWith. fold dps.
  rewrite !List.filter_app.
  rewrite filter_imap_all by reflexivity.
  rewrite filter_map_none by reflexivity.
  destruct (shownDescription session); repeat case_match; simpl;
    by rewrite ?app_nil_r.
Qed.

(** C2 (as amended).  [SessionContentDisplay] is the call site that groups:
    a point heads a group when it is the first point or has no number; the
    numbered points that directly follow it are its children, in order and
    without their numbers, up to the next point without a number.  So a run
    [kids] of numbered points after [parent] is grouped under [parent], the
    groups before and after being those of the points before and after; the
    group heads are the first point and the unnumbered points after it; the
    points "Point A", "1. Sub one", "2. Sub two", "Point B" give the group
    of "Point A" with children "Sub one" and "Sub two" and then the group of
    "Point B"; and [buildRevealItems] does not group: every discussion point
    is an item of the reveal sequence. *)
Theorem discussion_points_grouped (session : Session.t) :
  (forall pre parent kids post,
      pre = [] \/ Numbered.test parent = false ->
      Forall (fun s => Numbered.test s = true) kids ->
      (forall q post', post = q :: post' -> Numbered.test q = false) ->
      groupPoints session (pre ++ parent :: kids ++ post)
      = groupPoints session pre
        ++ Grouped.mk parent (List.map Numbered.strip kids)
                      (isVideoBreak parent) (videoResource session parent)
           :: groupPoints session post)
  /\ (forall first rest,
         List.map Grouped.point (groupPoints session (first :: rest))
         = first :: List.filter unnumbered rest)
  /\ List.map (fun g => (Grouped.point g, Grouped.children g))
              (groupPoints session groupingExample)
     = [("Point A", ["Sub one"; "Sub two"]); ("Point B", [])]
  /\ (let dps := orEmpty (Session.discussionPoints session) in
      List.filter isDiscussionPoint (buildRevealItems session)
      = imap (fun i text => DiscussionPoint text (Z.of_nat i) (JS.len dps)) dps).
Proof.
  split; [|split; [|split]].
  - intros pre parent kids post Hparent Hkids Hpost.
    assert (Hgroup : groupPoints session (parent :: kids ++ post)
                     = Grouped.mk parent (List.map Numbered.strip kids)
                                  (isVideoBreak parent) (videoResource session parent)
                         :: groupPoints session post).
    { rewrite groupPoints_cons, (collectChildren_run kids post Hkids Hpost).
      reflexivity. }
    destruct Hparent as [-> | Hparent].
    + exact Hgroup.
    + rewrite (groupPoints_app session parent (kids ++ post) Hparent pre).
      by rewrite Hgroup.
  - intros first rest. apply (groupPoints_points session (first :: rest)).
  - reflexivity.
  - apply buildRevealItems_points.
Qed.

Lemma discussion_points_grouped_witness :
  groupPoints groupingSession
              ([] ++ "Point A" :: ["1. Sub one"; "2. Sub two"] ++ ["Point B"])
  = groupPoints groupingSession []
    ++ Grouped.mk "Point A" (List.map Numbered.strip ["1. Sub one"; "2. Sub two"])
                  (isVideoBreak "Point A") (videoResource groupingSession "Point A")
       :: groupPoints groupingSession ["Point B"].
Proof.
  apply (proj1 (discussion_points_grouped groupingSession)).
  - left. reflexivity.
  - repeat constructor.
  - intros q post' [= <- _]. reflexivity.
Defined.

(** C2 (as stated) fails twice.  In the grouping loop a numbered point at the
    head of the list is a group head, and the numbered point after it becomes
    its child; and in the reveal sequence of [buildRevealItems] the points
    "1. Sub one" and "2. Sub two" of the stated example are items of their
    own, next to "Point A" and "Point B". *)
Lemma grouping_numbered_head :
  Numbered.test "1. Sub one" = true
  /\ List.map (fun g => (Grouped.point g, Grouped.children g))
              (groupPoints groupingSession ["1. Sub one"; "2. Sub two"; "Point B"])
     = [("1. Sub one", ["Sub two"]); ("Point B", [])]
  /\ ~ (forall g,
          In g (groupPoints groupingSession ["1. Sub one"; "2. Sub two"; "Point B"]) ->
          Numbered.test (Grouped.point g) = false)
  /\ buildRevealItems groupingSession
     = [CoreTopics ["Trust"];
        DiscussionPoint "Point A" 0 4; DiscussionPoint "1. Sub one" 1 4;
        DiscussionPoint "2. Sub two" 2 4; DiscussionPoint "Point B" 3 4].
Proof.
  repeat split.
  intros Hall.
  specialize (Hall (Grouped.mk "1. Sub one" ["Sub two"] false None) (or_introl eq_refl)).
  discriminate Hall.
Qed.

(** What [SessionContentDisplay] shows for the points of the example. *)
Example grouping_example_view :
  discussionPointsView groupingSession None
  = [GroupCard 1 "Point A" [(1, "Sub one"); (2, "Sub two")];
     GroupCard 2 "Point B" []].
Proof. reflexivity. Qed.

(** Points without a number are groups of their own. *)
Lemma groupPoints_unnumbered (session : Session.t) (points : list string) :
  Forall (fun p => Numbered.test p = false) points ->
  groupPoints session points
  = List.map (fun p => Grouped.mk p [] (isVideoBreak p) (videoResource session p))
             points.
Proof.
  induction 1 as [|point following Hpoint Hfollowing IH]; [reflexivity|].
  rewrite groupPoints_cons. simpl List.map. f_equal.
  - f_equal. destruct Hfollowing as [|next rest Hnext _]; [reflexivity|].
    simpl. by rewrite Hnext.
  - rewrite <- IH. f_equal.
    destruct Hfollowing as [|next rest Hnext _]; [reflexivity|].
    simpl. by rewrite Hnext.
Qed.

(** The "metrics" call site filters the numbered points out before the
    loop runs, so there no group has children. *)
Lemma metrics_groups_flat (session : Session.t) :
  Forall (fun g => Grouped.children g = [])
         (groupPoints session
                      (displayedPoints session (Some filterMetricsDiscussionPoints))).
Proof.
  rewrite groupPoints_unnumbered.
  - apply List.Forall_forall. intros g Hg. apply in_map_iff in Hg as (p & <- & _).
    reflexivity.
  - unfold displayedPoints. destruct (Session.discussionPoints session) as [dps|];
      [|constructor].
    apply List.Forall_forall. intros p Hp. apply List.filter_In in Hp as [_ Hkeep].
    unfold filterMetricsDiscussionPoints in Hkeep.
    destruct (JS.includes p "7 Tiny Daily Habits"); [discriminate|].
    by destruct (Numbered.test p).
Qed.

(** ** "Video Break:" discussion points *)

Lemma replace_video_prefix (rest : string) :
  JS.replace ("Video Break: " ++ rest)%string "Video Break: " "" = rest.
Proof. simpl. by destruct rest. Qed.

Lemma find_opt_Some {A} (pred : A -> bool) (arr : option (list A)) (x : A) :
  JS.find_opt pred arr = Some x -> In x (orEmpty arr) /\ pred x = true.
Proof.
  destruct arr as [l|]; simpl; [|discriminate].
  apply List.find_some.
Qed.

Lemma find_opt_None {A} (pred : A -> bool) (arr : option (list A)) (x : A) :
  JS.find_opt pred arr = None -> In x (orEmpty arr) -> pred x = false.
Proof.
  destruct arr as [l|]; simpl; [|done].
  intros Hnone Hin. exact (List.find_none pred l Hnone x Hin).
Qed.

Lemma imap_In {A B} (f : nat -> A -> B) (l : list A) (i : nat) (x : A) :
  l !! i = Some x -> In (f i x) (imap f l).
Proof.
  intros Hi. apply list_elem_of_In.
  apply (list_elem_of_lookup_2 _ i). by rewrite list_lookup_imap, Hi.
Qed.

(** By [buildRevealItems_closed], every discussion point is an item. *)
Lemma buildRevealItems_has_point (session : Session.t) (dps : list string)
      (i : nat) (text : string) :
  Session.discussionPoints session = Some dps ->
  dps !! i = Some text ->
  In (DiscussionPoint text (Z.of_nat i) (JS.len dps)) (buildRevealItems session).
Proof.
  intros Hdps Hi. rewrite buildRevealItems_closed. unfold sequenceWith.
  rewrite Hdps. simpl orEmpty.
  apply in_or_app. right. apply in_or_app. right. apply in_or_app. left.
  by apply (imap_In (fun i text => DiscussionPoint text (Z.of_nat i) (JS.len dps))).
Qed.

(** C9 (as amended).  A discussion point whose text begins with
    "Video Break:" is an item of the reveal sequence like any other point.
    When it is rendered, the look-up key is its text with the first occurrence
    of "Video Break: " (the marker and one space) removed, which for a text
    that begins with the marker and a space is the rest of the text; the
    point is rendered as a link to the first resource whose title equals the
    key, and as a plain numbered point when no resource has that title (or
    the session has no resources).  The grouping loop of
    [SessionContentDisplay] resolves the point in the same way, and its
    group is rendered as a link or as a card accordingly. *)
Theorem video_break_resolution (session : Session.t) (articles : list Article.t)
        (text : string) (index total : Z) :
  isVideoBreak text = true ->
  let key := JS.replace text "Video Break: " "" in
  let resolved :=
    JS.find_opt (fun r => String.eqb (SessionResource.title r) key)
                (Session.resources session) in
  (forall rest, text = ("Video Break: " ++ rest)%string -> key = rest)
  /\ itemView session articles (DiscussionPoint text index total)
     = match resolved with
       | Some r => VideoLink (SessionResource.url r) text
       | None => PlainPoint (index + 1) text
       end
  /\ ((exists r, In r (orEmpty (Session.resources session))
                 /\ SessionResource.title r = key)
      <-> exists href,
          itemView session articles (DiscussionPoint text index total)
          = VideoLink href text)
  /\ (forall dps i,
         Session.discussionPoints session = Some dps ->
         dps !! i = Some text ->
         In (DiscussionPoint text (Z.of_nat i) (JS.len dps)) (buildRevealItems session))
  /\ (forall following gIdx,
         exists g groups,
           groupPoints session (text :: following) = g :: groups
           /\ Grouped.point g = text
           /\ Grouped.isVideoBreak g = true
           /\ Grouped.videoResource g = resolved
           /\ renderGroup gIdx g
              = match resolved with
                | Some r => GroupVideoLink (SessionResource.url r) text
                | None =>
                    GroupCard (gIdx + 1) text
                              (imap (fun cIdx child => (Z.of_nat cIdx + 1, child))
                                    (Grouped.children g))
                end).
Proof.
  intros Hvideo key resolved.
  assert (Hview : itemView session articles (DiscussionPoint text index total)
                  = match resolved with
                    | Some r => VideoLink (SessionResource.url r) text
                    | None => PlainPoint (index + 1) text
                    end).
  { simpl. unfold videoResource. rewrite Hvideo. fold key. fold resolved.
    by destruct resolved. }
  split; [|split; [|split; [|split]]].
  - intros rest ->. apply replace_video_prefix.
  - exact Hview.
  - rewrite Hview. split.
    + intros (r & Hin & Htitle).
      destruct resolved as [r'|] eqn:Hres; [by eexists|].
      pose proof (find_opt_None _ _ r Hres Hin) as Hno. simpl in Hno.
      rewrite Htitle, String.eqb_refl in Hno. discriminate.
    + intros [href Hlink].
      destruct resolved as [r'|] eqn:Hres; [|discriminate].
      apply find_opt_Some in Hres as [Hin Htitle].
      exists r'. split; [exact Hin|]. by apply String.eqb_eq.
  - intros dps i. apply buildRevealItems_has_point.
  - intros following gIdx. rewrite groupPoints_cons.
    eexists _, _. split; [reflexivity|].
    assert (Hres : videoResource session text = resolved)
      by (unfold videoResource; by rewrite Hvideo).
    unfold renderGroup. simpl. rewrite Hvideo, Hres.
    repeat split.
Qed.

Lemma video_break_resolution_witness :
  JS.replace "Video Break: Trust" "Video Break: " "" = "Trust"
  /\ itemView videoSession [] (DiscussionPoint "Video Break: Trust" 0 3)
     = VideoLink "https://example.org/trust" "Video Break: Trust".
Proof.
  pose proof (video_break_resolution videoSession [] "Video Break: Trust" 0 3 eq_refl)
    as (Hkey & Hview & _).
  split.
  - exact (Hkey "Trust" eq_refl).
  - exact Hview.
Defined.

(** C9 (as stated) fails: the text "Video Break:Trust" begins with the marker
    and, without the marker, equals the title of a resource of the session,
    yet it is rendered as a plain point, because the page removes the marker
    together with a space that this text does not have; and the text
    "Video Break: Trust", which is rendered as a link to that resource,
    does not equal its title once only the marker is taken off. *)
Lemma video_break_marker_only :
  isVideoBreak "Video Break:Trust" = true
  /\ keyAsSpecified "Video Break:Trust" = "Trust"
  /\ resolvedAsSpecified videoSession "Video Break:Trust" = Some trustVideo
  /\ itemView videoSession [] (DiscussionPoint "Video Break:Trust" 1 3)
     = PlainPoint 2 "Video Break:Trust"
  /\ keyAsSpecified "Video Break: Trust" = " Trust"
  /\ resolvedAsSpecified videoSession "Video Break: Trust" = None
  /\ itemView videoSession [] (DiscussionPoint "Video Break: Trust" 0 3)
     = VideoLink "https://example.org/trust" "Video Break: Trust".
Proof. repeat split. Qed.

(** ** The reveal state *)

Section Reveal.

Variable totalSteps : Z.

Lemma advance_below (step : Z) :
  step < totalSteps -> SessionCard.advance totalSteps step = step + 1.
Proof. unfold SessionCard.advance. intros H. case_match; lia. Qed.

Lemma advance_at_end (step : Z) :
  totalSteps <= step -> SessionCard.advance totalSteps step = step.
Proof. unfold SessionCard.advance. intros H. case_match; lia. Qed.

Lemma goBack_above (step : Z) : 0 < step -> SessionCard.goBack step = step - 1.
Proof. unfold SessionCard.goBack. intros H. case_match; lia. Qed.

Lemma goBack_at_start (step : Z) : step <= 0 -> SessionCard.goBack step = step.
Proof. unfold SessionCard.goBack. intros H. case_match; lia. Qed.

Lemma iter_advance (k : nat) :
  (k <= Z.to_nat totalSteps)%nat ->
  Nat.iter k (SessionCard.advance totalSteps) 0 = Z.of_nat k.
Proof.
  induction k as [|k IH]; intros Hk; [reflexivity|].
  simpl. rewrite IH by lia. rewrite advance_below; lia.
Qed.

Lemma iter_advance_beyond (extra : nat) :
  0 <= totalSteps ->
  Nat.iter (Z.to_nat totalSteps + extra) (SessionCard.advance totalSteps) 0
  = totalSteps.
Proof.
  intros Htotal. induction extra as [|extra IH].
  - rewrite Nat.add_0_r, iter_advance; lia.
  - rewrite Nat.add_succ_r. simpl. rewrite IH. apply advance_at_end. lia.
Qed.

Lemma keydown_right (step : Z) :
  step <= totalSteps ->
  SessionCard.keydown totalSteps "ArrowRight" step = SessionCard.advance totalSteps step
  /\ SessionCard.keydown totalSteps " " step = SessionCard.advance totalSteps step.
Proof.
  intros H. unfold SessionCard.keydown, SessionCard.advance. simpl.
  case_match; lia.
Qed.

Lemma keydown_left (step : Z) :
  0 <= step ->
  SessionCard.keydown totalSteps "ArrowLeft" step = SessionCard.goBack step.
Proof.
  intros H. unfold SessionCard.keydown, SessionCard.goBack. simpl.
  case_match; lia.
Qed.

Lemma step_preserves (step step' : Z) :
  0 <= totalSteps ->
  RevealInvariant totalSteps step ->
  RevealStep totalSteps step step' ->
  RevealInvariant totalSteps step'.
Proof.
  unfold RevealInvariant. intros Htotal Hinv Hstep.
  destruct Hstep as [step|step|step|step|key step].
  - unfold SessionCard.advance. case_match; lia.
  - unfold SessionCard.goBack. case_match; lia.
  - unfold SessionCard.revealAll. lia.
  - unfold SessionCard.collapseEffect. simpl. lia.
  - unfold SessionCard.keydown. repeat case_match; lia.
Qed.

End Reveal.

(** C3.  In a reveal state with [0 <= step <= totalSteps], [advance] adds one
    to [step] when [step < totalSteps] and leaves it as it is when
    [step = totalSteps]; from [step = 0], [k] calls reach [k] for every
    [k <= totalSteps], so exactly [totalSteps] calls reach [totalSteps], and
    any number of further calls leaves it there.  The right-arrow and space
    keys do the same as [advance]. *)
Theorem advance_saturates (totalSteps step : Z) :
  0 <= step <= totalSteps ->
  (step < totalSteps -> SessionCard.advance totalSteps step = step + 1)
  /\ (step = totalSteps -> SessionCard.advance totalSteps step = step)
  /\ (forall k : nat,
         (k <= Z.to_nat totalSteps)%nat ->
         Nat.iter k (SessionCard.advance totalSteps) SessionCard.initialStep = Z.of_nat k)
  /\ (forall extra : nat,
         Nat.iter (Z.to_nat totalSteps + extra) (SessionCard.advance totalSteps)
                  SessionCard.initialStep
         = totalSteps)
  /\ SessionCard.keydown totalSteps "ArrowRight" step = SessionCard.advance totalSteps step
  /\ SessionCard.keydown totalSteps " " step = SessionCard.advance totalSteps step.
Proof.
  intros Hinv. repeat split.
  - apply advance_below.
  - intros ->. apply advance_at_end. lia.
  - apply iter_advance.
  - intros extra. apply iter_advance_beyond. lia.
  - apply keydown_right. lia.
  - apply keydown_right. lia.
Qed.

Lemma advance_saturates_witness :
  SessionCard.advance 5 2 = 3
  /\ Nat.iter 5 (SessionCard.advance 5) SessionCard.initialStep = 5
  /\ Nat.iter (5 + 1) (SessionCard.advance 5) SessionCard.initialStep = 5.
Proof.
  pose proof (advance_saturates 5 2 ltac:(lia)) as (Hlt & _ & Hk & Hextra & _).
  split; [|split].
  - apply Hlt. lia.
  - apply (Hk 5%nat). simpl. lia.
  - apply (Hextra 1%nat).
Defined.

(** C4.  In a reveal state with [0 <= step <= totalSteps], [goBack] takes one
    from [step] when [step > 0] and leaves it as it is when [step = 0].  The
    left-arrow key does the same as [goBack]. *)
Theorem goBack_saturates (totalSteps step : Z) :
  0 <= step <= totalSteps ->
  (0 < step -> SessionCard.goBack step = step - 1)
  /\ (step = 0 -> SessionCard.goBack step = step)
  /\ SessionCard.keydown totalSteps "ArrowLeft" step = SessionCard.goBack step.
Proof.
  intros Hinv. repeat split.
  - apply goBack_above.
  - intros ->. reflexivity.
  - apply keydown_left. lia.
Qed.

Lemma goBack_saturates_witness :
  SessionCard.goBack 3 = 2 /\ SessionCard.keydown 5 "ArrowLeft" 3 = SessionCard.goBack 3.
Proof.
  pose proof (goBack_saturates 5 3 ltac:(lia)) as (Hgt & _ & Hkey).
  split; [apply Hgt; lia|exact Hkey].
Defined.

(** ** Collapsing a card *)

Lemma toggleSession_own (sessionId : string) (expandedSessions : gset string) :
  bool_decide (sessionId ∈ toggleSession sessionId expandedSessions)
  = negb (bool_decide (sessionId ∈ expandedSessions)).
Proof.
  unfold toggleSession.
  destruct (bool_decide_reflect (sessionId ∈ expandedSessions)) as [Hin|Hout]; simpl.
  - apply bool_decide_eq_false. rewrite elem_of_difference, elem_of_singleton. tauto.
  - apply bool_decide_eq_true. rewrite elem_of_union, elem_of_singleton. tauto.
Qed.

(** Only a toggle changes whether the card is expanded. *)
Lemma handle_expanded (session : Session.t) (ev : Page.Event) (page : Page.t) :
  (forall sessionId, ev <> Page.ToggleClick sessionId) ->
  Page.isExpanded session (Page.handle session ev page) = Page.isExpanded session page.
Proof.
  intros Hev. destruct ev as [sessionId| | | |key]; simpl.
  - by destruct (Hev sessionId).
  - destruct (Page.isExpanded session page) eqn:Hexp; exact Hexp.
  - destruct (Page.isExpanded session page) eqn:Hexp; exact Hexp.
  - destruct (Page.isExpanded session page) eqn:Hexp; simpl;
      [destruct (negb _)|]; exact Hexp.
  - destruct (Page.isExpanded session page) eqn:Hexp; exact Hexp.
Qed.

Lemma handle_collapse (session : Session.t) (ev : Page.Event) (page : Page.t) :
  Page.isExpanded session page = true ->
  Page.isExpanded session (Page.handle session ev page) = false ->
  Page.step (Page.handle session ev page) = 0.
Proof.
  intros Hbefore Hafter.
  destruct ev as [sessionId| | | |key];
    try (rewrite handle_expanded in Hafter by discriminate; congruence).
  simpl in *. unfold Page.isExpanded in *. simpl in *.
  by rewrite Hbefore, Hafter.
Qed.

(** C5.  From any reveal state, [revealAll] sets [step] to [totalSteps], and
    the reset that follows sets it to 0.  The reset runs whenever the card
    goes from expanded to collapsed: whatever event takes an expanded card to
    a collapsed one leaves [step = 0], and a click on the header of an
    expanded card is such an event. *)
Theorem revealAll_then_reset (session : Session.t) (page : Page.t) (step : Z) :
  Page.isExpanded session page = true ->
  SessionCard.revealAll (SessionCard.totalSteps session) step = SessionCard.totalSteps session
  /\ SessionCard.collapseEffect false
       (SessionCard.revealAll (SessionCard.totalSteps session) step) = 0
  /\ (forall ev,
         Page.isExpanded session (Page.handle session ev page) = false ->
         Page.step (Page.handle session ev page) = 0)
  /\ Page.isExpanded session
       (Page.handle session (Page.ToggleClick (Session.id session)) page) = false
  /\ Page.step (Page.handle session (Page.ToggleClick (Session.id session)) page) = 0.
Proof.
  intros Hexpanded.
  assert (Hcollapsed :
            Page.isExpanded session
              (Page.handle session (Page.ToggleClick (Session.id session)) page) = false).
  { unfold Page.isExpanded in *. simpl.
    by rewrite toggleSession_own, Hexpanded. }
  repeat split.
  - intros ev. by apply handle_collapse.
  - exact Hcollapsed.
  - by apply handle_collapse.
Qed.

Lemma revealAll_then_reset_witness :
  Page.step
    (Page.handle groupingSession (Page.ToggleClick "trust") (Page.mk {[ "trust" ]} 3))
  = 0.
Proof.
  assert (Hexpanded : Page.isExpanded groupingSession (Page.mk {[ "trust" ]} 3) = true)
    by (vm_compute; reflexivity).
  exact (proj2 (proj2 (proj2 (proj2
           (revealAll_then_reset groupingSession (Page.mk {[ "trust" ]} 3) 3 Hexpanded))))).
Defined.

(** ** The three tiers of visibility *)

Lemma tierOf_renderItem (session : Session.t) (articles : list Article.t)
      (step : Z) (item : RevealItem) (idx : Z) :
  tierOf (renderItem session articles step item idx)
  = if isVisible idx step
    then if isCurrent idx step then Current else Past
    else Invisible.
Proof.
  unfold renderItem. destruct (isVisible idx step); simpl; [|reflexivity].
  by destruct (isCurrent idx step).
Qed.

(** C6.  For every step of the reveal state and every item, at 0-indexed
    position [idx], of the sequence, what [renderItem] returns is invisible
    exactly when [idx >= step], visible and dimmed (past) exactly when
    [idx < step - 1], which is when [isPast] holds, and visible and emphasized
    (current) exactly when [idx = step - 1].  For the items of a session's
    reveal sequence: at step 0 every item is invisible; at step 1 item 0 is
    current and no item is past; at step [totalSteps] the last item is
    current and every earlier item is past. *)
Theorem three_tier_visibility (session : Session.t) (articles : list Article.t)
        (step : Z) (item : RevealItem) (i : nat) :
  buildRevealItems session !! i = Some item ->
  let idx := Z.of_nat i in
  let tier k := tierOf (renderItem session articles k item idx) in
  (tier step = Invisible <-> idx >= step)
  /\ (tier step = Past <-> idx < step - 1)
  /\ (tier step = Current <-> idx = step - 1)
  /\ (isPast idx step = true <-> tier step = Past)
  /\ tier 0 = Invisible
  /\ (idx = 0 -> tier 1 = Current)
  /\ tier 1 <> Past
  /\ (idx = SessionCard.totalSteps session - 1 -> tier (SessionCard.totalSteps session) = Current)
  /\ (idx < SessionCard.totalSteps session - 1 -> tier (SessionCard.totalSteps session) = Past)
  /\ idx <= SessionCard.totalSteps session - 1.
Proof.
  intros Hitem idx tier.
  assert (Hidx : 0 <= idx < SessionCard.totalSteps session).
  { apply lookup_lt_Some in Hitem. unfold idx, SessionCard.totalSteps, JS.len. lia. }
  assert (Htier : forall k,
             tier k = if isVisible idx k
                      then if isCurrent idx k then Current else Past
                      else Invisible)
    by (intros k; apply tierOf_renderItem).
  unfold isVisible, isCurrent in Htier. unfold isPast.
  repeat split; try intros H; rewrite ?Htier in *;
    repeat case_match;
    first [reflexivity | discriminate | lia | apply Z.compare_gt_iff in H; lia].
Qed.

Lemma three_tier_visibility_witness :
  tierOf (renderItem groupingSession [] 3 (DiscussionPoint "1. Sub one" 1 4) 2) = Current
  /\ tierOf (renderItem groupingSession [] 1 (DiscussionPoint "1. Sub one" 1 4) 2) <> Past.
Proof.
  pose proof (three_tier_visibility groupingSession [] 3
                (DiscussionPoint "1. Sub one" 1 4) 2 eq_refl)
    as (_ & _ & Hcurrent & _ & _ & _ & Hone & _).
  split; [apply Hcurrent; reflexivity|exact Hone].
Defined.

(** ** The invariant of the reveal state *)

Lemma handle_preserves (session : Session.t) (ev : Page.Event) (page : Page.t) :
  RevealInvariant (SessionCard.totalSteps session) (Page.step page) ->
  RevealInvariant (SessionCard.totalSteps session) (Page.step (Page.handle session ev page)).
Proof.
  unfold RevealInvariant. intros Hinv.
  destruct ev as [sessionId| | | |key]; simpl;
    unfold SessionCard.collapseEffect, SessionCard.advance, SessionCard.goBack,
      SessionCard.revealAll, SessionCard.keydown;
    repeat case_match; simpl; lia.
Qed.

Lemma run_preserves (session : Session.t) (evs : list Page.Event) :
  forall page,
    RevealInvariant (SessionCard.totalSteps session) (Page.step page) ->
    RevealInvariant (SessionCard.totalSteps session) (Page.step (Page.run session evs page)).
Proof.
  induction evs as [|ev evs IH]; intros page Hinv; [exact Hinv|].
  simpl. apply IH. by apply handle_preserves.
Qed.

(** C7.  Whenever [totalSteps] is not negative (it is a length), the
    invariant [0 <= step <= totalSteps] holds in the initial state, is
    preserved by every transition of the reveal state ([advance], [goBack],
    [revealAll], the reset on collapse, and a key press, whatever the key),
    and so holds in every reachable state; and it holds for a session's card
    after any sequence of input events on the page. *)
Theorem reveal_invariant (totalSteps : Z) :
  0 <= totalSteps ->
  RevealInvariant totalSteps SessionCard.initialStep
  /\ (forall step step',
         RevealInvariant totalSteps step ->
         RevealStep totalSteps step step' ->
         RevealInvariant totalSteps step')
  /\ (forall step, RevealReachable totalSteps step -> RevealInvariant totalSteps step)
  /\ (forall session evs,
         totalSteps = SessionCard.totalSteps session ->
         RevealInvariant totalSteps
                         (Page.step (Page.run session evs Page.initial))).
Proof.
  intros Htotal.
  assert (Hinit : RevealInvariant totalSteps SessionCard.initialStep)
    by (unfold RevealInvariant, SessionCard.initialStep; lia).
  split; [exact Hinit|]. split; [|split].
  - intros step step'. by apply step_preserves.
  - intros step Hreach. induction Hreach as [|step step' _ IH Hstep].
    + exact Hinit.
    + by apply (step_preserves _ step).
  - intros session evs ->. apply run_preserves. exact Hinit.
Qed.

Lemma reveal_invariant_witness :
  RevealInvariant 5 (SessionCard.keydown 5 "ArrowRight" (SessionCard.advance 5 0)).
Proof.
  apply (proj1 (proj2 (proj2 (reveal_invariant 5 ltac:(lia))))).
  eapply reach_step; [eapply reach_step; [apply reach_initial|]|].
  - apply step_advance.
  - apply step_keydown.
Defined.

(** ** The drill-down navigator *)

(** C8.  The navigator starts on the grid; [openSection] from the grid yields
    the section it is given, whichever it is (so the section "culture" for
    the cell of that cluster), and a click on a cell of the grid opens the
    cluster of that cell; [goBackToGrid] yields the grid from every section,
    and from the grid too; on the grid, where no back button is shown, a
    back click changes nothing and asks for nothing. *)
Theorem drill_navigator :
  Grid.initial = grid
  /\ (forall section, fst (Grid.openSection section grid) = section)
  /\ fst (Grid.openSection culture Grid.initial) = culture
  /\ (forall idx,
         fst (Grid.click (Grid.CellClick idx) grid)
         = from_option snd grid (GRID_CELLS !! idx))
  /\ (forall activeSection, fst (Grid.goBackToGrid activeSection) = grid)
  /\ fst (Grid.goBackToGrid culture) = grid
  /\ fst (Grid.goBackToGrid grid) = grid
  /\ (forall activeSection, fst (Grid.click Grid.BackClick activeSection) = grid)
  /\ Grid.click Grid.BackClick grid = (grid, []).
Proof.
  repeat split.
  - intros idx. simpl. by destruct (GRID_CELLS !! idx).
  - by intros [].
Qed.

(** ** The progress bar *)

Lemma totalSteps_pos (session : Session.t) : 0 < SessionCard.totalSteps session.
Proof.
  unfold SessionCard.totalSteps. rewrite buildRevealItems_closed, length_sequenceWith.
  unfold lengthWith.
  pose proof (len_nonneg (orEmpty (Session.discussionPoints session))).
  pose proof (len_nonneg (orEmpty (Session.introspections session))).
  repeat case_match; lia.
Qed.

(** *** The same expression on binary64 numbers *)

(** One shift to the right: the mantissa [2 * y + b] loses its last bit [b],
    which becomes the round bit, and the old round and sticky bits merge into
    the sticky bit. *)
Lemma represents_half (r s : bool) (N D x y : Z) (b : bool) :
  0 < D ->
  x = 2 * y + (if b then D else 0) ->
  x <= N < x + D ->
  (r = true <-> 2 * x + D <= 2 * N) ->
  (s = false <-> (N = x \/ 2 * N = 2 * x + D)) ->
  2 * y <= N < 2 * y + 2 * D
  /\ (b = true <-> 2 * (2 * y) + 2 * D <= 2 * N)
  /\ (r || s = false <-> (N = 2 * y \/ 2 * N = 2 * (2 * y) + 2 * D)).
Proof.
  intros HD -> Hbounds Hr Hs.
  destruct b, r, s; simpl in *; intuition (try discriminate; try lia).
Qed.

Lemma shr_1_represents (mrs : shr_record) (N D : Z) :
  Represents mrs N D -> Represents (shr_1 mrs) N (2 * D).
Proof.
  destruct mrs as [m r s]. unfold Represents. cbn [shr_m shr_r shr_s].
  intros (HD & Hm & Hbounds & Hr & Hs).
  destruct m as [|[p|p|]|p]; try lia; cbn [shr_1 shr_m shr_r shr_s].
  - split; [lia|]. split; [lia|].
    replace (0 * (2 * D)) with (2 * 0) by ring.
    apply (represents_half r s N D (0 * D) 0 false); try assumption. ring.
  - split; [lia|]. split; [lia|].
    replace (Z.pos p * (2 * D)) with (2 * (Z.pos p * D)) by ring.
    apply (represents_half r s N D (Z.pos p~1 * D) (Z.pos p * D) true); try assumption.
    rewrite Pos2Z.inj_xI. ring.
  - split; [lia|]. split; [lia|].
    replace (Z.pos p * (2 * D)) with (2 * (Z.pos p * D)) by ring.
    apply (represents_half r s N D (Z.pos p~0 * D) (Z.pos p * D) false); try assumption.
    rewrite Pos2Z.inj_xO. ring.
  - split; [lia|]. split; [lia|].
    replace (0 * (2 * D)) with (2 * 0) by ring.
    apply (represents_half r s N D (1 * D) 0 true); try assumption. ring.
Qed.

Lemma pow2_xI (p : positive) : 2 ^ Z.pos p~1 = 2 ^ Z.pos p * (2 ^ Z.pos p * 2).
Proof.
  replace (Z.pos p~1) with (Z.pos p + (Z.pos p + 1)) by lia.
  rewrite !Z.pow_add_r by lia. reflexivity.
Qed.

Lemma pow2_xO (p : positive) : 2 ^ Z.pos p~0 = 2 ^ Z.pos p * 2 ^ Z.pos p.
Proof.
  replace (Z.pos p~0) with (Z.pos p + Z.pos p) by lia.
  rewrite !Z.pow_add_r by lia. reflexivity.
Qed.

(** [p] shifts to the right. *)
Lemma iter_pos_represents (p : positive) :
  forall (mrs : shr_record) (N D : Z),
    Represents mrs N D -> Represents (SpecFloat.iter_pos shr_1 p mrs) N (2 ^ Z.pos p * D).
Proof.
  induction p as [p IH|p IH|]; intros mrs N D Hrep; simpl SpecFloat.iter_pos.
  - replace (2 ^ Z.pos p~1 * D) with (2 ^ Z.pos p * (2 ^ Z.pos p * (2 * D)))
      by (rewrite pow2_xI; ring).
    apply IH, IH, shr_1_represents, Hrep.
  - replace (2 ^ Z.pos p~0 * D) with (2 ^ Z.pos p * (2 ^ Z.pos p * D))
      by (rewrite pow2_xO; ring).
    apply IH, IH, Hrep.
  - replace (2 ^ 1 * D) with (2 * D) by reflexivity. apply shr_1_represents, Hrep.
Qed.

(** [shr] by [n] places: the record stands for the same number in units
    [2 ^ n] times as large. *)
Lemma shr_represents (mrs : shr_record) (e n N D : Z) :
  Represents mrs N D ->
  exists k, 0 <= k /\ snd (shr mrs e n) = e + k /\ k = Z.max 0 n
            /\ Represents (fst (shr mrs e n)) N (2 ^ k * D).
Proof.
  intros Hrep.
  assert (Hzero : Represents mrs N (2 ^ 0 * D)) by (by rewrite Z.pow_0_r, Z.mul_1_l).
  destruct n as [|p|p]; cbn [shr fst snd].
  - exists 0. rewrite Z.add_0_r. split; [lia|]. split; [lia|]. split; [lia|exact Hzero].
  - exists (Z.pos p). split; [lia|]. split; [lia|]. split; [lia|].
    by apply iter_pos_represents.
  - exists 0. rewrite Z.add_0_r. split; [lia|]. split; [lia|]. split; [lia|exact Hzero].
Qed.

(** The number of binary digits. *)
Lemma digits2_pos_size (p : positive) : digits2_pos p = Pos.size p.
Proof. induction p as [p IH|p IH|]; simpl; by rewrite ?IH. Qed.

Lemma Zdigits2_le (m k : Z) : 0 <= k -> 0 <= m < 2 ^ k -> Zdigits2 m <= k.
Proof.
  intros Hk Hm. destruct m as [|p|p]; simpl; try lia.
  rewrite digits2_pos_size.
  destruct (Z.le_gt_cases (Z.pos (Pos.size p)) k) as [Hle|Hgt]; [exact Hle|exfalso].
  pose proof (Pos.size_le p) as Hsize.
  assert (Hpow : 2 ^ (k + 1) <= 2 ^ Z.pos (Pos.size p))
    by (apply Z.pow_le_mono_r; lia).
  rewrite Z.pow_add_r, Z.pow_1_r in Hpow by lia.
  apply Pos2Z.pos_le_pos in Hsize.
  rewrite Pos2Z.inj_pow in Hsize. lia.
Qed.

Lemma fexp64_eq (x : Z) : fexp64 x = Z.max (x - 53) (-1074).
Proof. reflexivity. Qed.

(** What [shr_record_of_loc] builds from a mantissa and a location. *)
Lemma shr_m_of_loc (m : Z) (l : location) : shr_m (shr_record_of_loc m l) = m.
Proof. by destruct l as [|[]]. Qed.

Lemma represents_exact (m : Z) : 0 <= m -> Represents (shr_record_of_loc m loc_Exact) m 1.
Proof.
  intros Hm. unfold Represents. cbn [shr_record_of_loc shr_m shr_r shr_s].
  intuition (try discriminate; try lia).
Qed.

(** Rounding to nearest never passes an integer bound of the number. *)
Lemma round_nearest_even_le (mrs : shr_record) (N D K : Z) :
  Represents mrs N D -> N <= K * D ->
  0 <= round_nearest_even (shr_m mrs) (loc_of_shr_record mrs) <= K.
Proof.
  destruct mrs as [m r s]. unfold Represents. cbn [shr_m shr_r shr_s].
  intros (HD & Hm & Hbounds & Hr & Hs) HK.
  assert (HmK : m <= K) by nia.
  assert (Hexact : m = K -> r = false /\ s = false).
  { intros ->. assert (N = K * D) by lia. split.
    - destruct r; [|reflexivity]. assert (2 * (K * D) + D <= 2 * N) by tauto. lia.
    - apply Hs. by left. }
  destruct r, s; simpl; try destruct (Z.even m); try lia;
    destruct (Z.eq_dec m K) as [Heq|Hne]; try lia;
    destruct (Hexact Heq); discriminate.
Qed.

Lemma pow2_pos (k : Z) : 0 <= k -> 0 < 2 ^ k.
Proof. intros Hk. apply Z.pow_pos_nonneg; lia. Qed.

Lemma fexp64_le (x k : Z) : 0 <= k -> x <= k -> fexp64 x <= k - 53.
Proof. intros Hk Hx. rewrite fexp64_eq. lia. Qed.

(** A mantissa below [K * 2 ^ a] with [K < 2 ^ k] has at most [k + a] digits. *)
Lemma Zdigits2_bound (m K k a : Z) :
  0 <= k -> 0 <= a -> 0 <= K < 2 ^ k -> 0 <= m <= K * 2 ^ a ->
  Zdigits2 m <= k + a.
Proof.
  intros Hk Ha HK Hm. apply Zdigits2_le; [lia|].
  rewrite Z.pow_add_r by lia.
  pose proof (pow2_pos a Ha). nia.
Qed.

(** [shr_fexp] on a number below [K * 2 ^ (- e)]: the new exponent stays
    below [max e (k - 53)], and the record stands for the same number. *)
Lemma shr_fexp_represents (m e : Z) (l : location) (N D K k : Z) :
  Represents (shr_record_of_loc m l) N D ->
  e <= 0 -> 0 <= k <= 53 -> 0 <= K < 2 ^ k ->
  N <= K * 2 ^ (- e) * D ->
  exists n,
    0 <= n
    /\ snd (shr_fexp Binary64.prec Binary64.emax m e l) = e + n
    /\ e + n <= Z.max e (k - 53)
    /\ Represents (fst (shr_fexp Binary64.prec Binary64.emax m e l)) N (2 ^ n * D)
    /\ N <= K * 2 ^ (- (e + n)) * (2 ^ n * D).
Proof.
  intros Hrep He Hk HK HN. unfold shr_fexp.
  destruct (shr_represents _ e (fexp64 (Zdigits2 m + e) - e) N D Hrep)
    as (n & Hn & Hsnd & Hmax & Hrep').
  exists n. split; [exact Hn|]. split; [exact Hsnd|].
  assert (Hm : 0 <= m <= K * 2 ^ (- e)).
  { destruct Hrep as (HD & Hm & Hbounds & _). rewrite shr_m_of_loc in *.
    split; [exact Hm|]. nia. }
  pose proof (Zdigits2_bound m K k (- e) ltac:(lia) ltac:(lia) HK Hm) as Hdigits.
  pose proof (fexp64_le (Zdigits2 m + e) k ltac:(lia) ltac:(lia)) as Hfexp.
  assert (Hen : e + n <= Z.max e (k - 53)) by lia.
  split; [exact Hen|]. split; [exact Hrep'|].
  replace (K * 2 ^ (- (e + n)) * (2 ^ n * D)) with (K * (2 ^ (- (e + n)) * 2 ^ n) * D)
    by ring.
  rewrite <- Z.pow_add_r by lia.
  by replace (- (e + n) + n) with (- e) by lia.
Qed.

Lemma binary_round_aux_le (mx ex : Z) (lx : location) (N D K k : Z) :
  Represents (shr_record_of_loc mx lx) N D ->
  ex <= 0 -> 0 <= k <= 53 -> 0 <= K < 2 ^ k ->
  N <= K * 2 ^ (- ex) * D ->
  AtMost K k ex (binary_round_aux Binary64.prec Binary64.emax false mx ex lx).
Proof.
  intros Hrep Hex Hk HK HN. unfold binary_round_aux.
  destruct (shr_fexp_represents mx ex lx N D K k Hrep Hex Hk HK HN)
    as (n1 & Hn1 & He1 & Hle1 & Hrep1 & HN1).
  destruct (shr_fexp Binary64.prec Binary64.emax mx ex lx) as [mrs1 e1].
  cbn [fst snd] in *. subst e1.
  set (e1 := ex + n1) in *.
  set (mr := round_nearest_even (shr_m mrs1) (loc_of_shr_record mrs1)).
  assert (Hmr : 0 <= mr <= K * 2 ^ (- e1))
    by (apply (round_nearest_even_le mrs1 N (2 ^ n1 * D)); assumption).
  assert (Hmr1 : mr <= K * 2 ^ (- e1) * 1) by lia.
  destruct (shr_fexp_represents mr e1 loc_Exact mr 1 K k
              (represents_exact mr (proj1 Hmr)) ltac:(lia) Hk HK Hmr1)
    as (n2 & Hn2 & He2 & Hle2 & Hrep2 & HN2).
  destruct (shr_fexp Binary64.prec Binary64.emax mr e1 loc_Exact) as [mrs2 e2].
  cbn [fst snd] in *. subst e2.
  destruct Hrep2 as (HD2 & Hm2 & Hbounds2 & _).
  destruct (shr_m mrs2) as [|m|m] eqn:Hshr; [by left| |lia].
  right. exists m, (e1 + n2).
  assert (Hexp : e1 + n2 <= Z.max ex (k - 53)) by lia.
  split.
  - assert (Hfits : (e1 + n2 <=? Binary64.emax - Binary64.prec) = true).
    { apply Z.leb_le. unfold Binary64.emax, Binary64.prec. lia. }
    by rewrite Hfits.
  - split; [exact Hexp|].
    pose proof (pow2_pos n2 Hn2) as Hpow.
    assert (Hmul : Z.pos m * (2 ^ n2 * 1) <= K * 2 ^ (- (e1 + n2)) * (2 ^ n2 * 1)) by lia.
    nia.
Qed.

Lemma represents_located (q : Z) (l : location) (N D : Z) :
  0 < D -> 0 <= q -> q * D <= N < q * D + D -> Located l (q * D) N D ->
  Represents (shr_record_of_loc q l) N D.
Proof.
  intros HD Hq Hbounds Hloc. unfold Represents. rewrite shr_m_of_loc.
  revert Hbounds Hloc. generalize (q * D). intros x Hbounds Hloc.
  destruct l as [|[]]; cbn [Located shr_record_of_loc shr_r shr_s] in *;
    intuition (try discriminate; try lia).
Qed.

(** The location [new_location] computes for a remainder. *)
Lemma new_location_represents (q r d : Z) :
  0 <= q -> 0 <= r < d ->
  Represents (shr_record_of_loc q (new_location d r)) (q * d + r) d.
Proof.
  intros Hq Hr. apply represents_located; try lia.
  unfold new_location, new_location_even, new_location_odd.
  generalize (q * d). intros x.
  destruct (Z.even d) eqn:Heven; destruct (Z.eqb_spec r 0) as [->|Hr0];
    cbn [Located]; try lia.
  - destruct (Z.compare_spec (2 * r) d); cbn [Located]; lia.
  - assert (Hodd : exists c, d = 2 * c + 1).
    { apply Z.odd_spec. by rewrite <- Z.negb_even, Heven. }
    destruct Hodd as [c ->].
    destruct (Z.compare_spec (2 * r + 1) (2 * c + 1)); cbn [Located]; lia.
Qed.

(** The quotient [SFdiv_core_binary] hands to the rounding. *)
Lemma SFdiv_core_represents (m1 m2 : positive) (e1 e2 : Z) :
  exists q e l,
    SFdiv_core_binary Binary64.prec Binary64.emax (Z.pos m1) e1 (Z.pos m2) e2 = (q, e, l)
    /\ e <= e1 - e2
    /\ e <= fexp64 (Zdigits2 (Z.pos m1) + e1 - (Zdigits2 (Z.pos m2) + e2))
    /\ Represents (shr_record_of_loc q l) (Z.pos m1 * 2 ^ (e1 - e2 - e)) (Z.pos m2).
Proof.
  unfold SFdiv_core_binary.
  set (e := Z.min (fexp64 (Zdigits2 (Z.pos m1) + e1 - (Zdigits2 (Z.pos m2) + e2)))
                  (e1 - e2)).
  set (s := e1 - e2 - e).
  assert (Hs : 0 <= s) by (unfold s, e; lia).
  set (m' := match s with
             | 0 => Z.pos m1
             | Z.pos _ => Z.shiftl (Z.pos m1) s
             | Z.neg _ => 0
             end).
  assert (Hm' : m' = Z.pos m1 * 2 ^ s).
  { unfold m'. destruct s as [|p|p] eqn:Hseq; [simpl; lia| |lia].
    apply Z.shiftl_mul_pow2. lia. }
  pose proof (Z_div_mod m' (Z.pos m2) ltac:(lia)) as Hdiv.
  destruct (Z.div_eucl m' (Z.pos m2)) as [q r].
  destruct Hdiv as [Hm'eq Hr].
  exists q, e, (new_location (Z.pos m2) r).
  split; [reflexivity|]. split; [unfold e; lia|]. split; [unfold e; lia|].
  change (e1 - e2 - e) with s. rewrite <- Hm', Hm'eq.
  replace (Z.pos m2 * q + r) with (q * Z.pos m2 + r) by ring.
  apply new_location_represents; [|lia].
  pose proof (pow2_pos s Hs). nia.
Qed.

(** Rounding a number that is already in canonical form changes nothing. *)
Lemma binary_round_aux_canonical (m : positive) (e : Z) :
  fexp64 (Zdigits2 (Z.pos m) + e) <= e -> e <= 971 ->
  binary_round_aux Binary64.prec Binary64.emax false (Z.pos m) e loc_Exact
  = S754_finite false m e.
Proof.
  intros Hcanonical He.
  assert (Hshr : shr_fexp Binary64.prec Binary64.emax (Z.pos m) e loc_Exact
                 = (shr_record_of_loc (Z.pos m) loc_Exact, e)).
  { unfold shr_fexp, shr.
    destruct (fexp64 (Zdigits2 (Z.pos m) + e) - e) eqn:Hn; [reflexivity|lia|reflexivity]. }
  unfold binary_round_aux. rewrite Hshr.
  cbn [shr_record_of_loc loc_of_shr_record shr_m round_nearest_even].
  rewrite Hshr. cbn [shr_record_of_loc shr_m].
  assert (Hfits : (e <=? Binary64.emax - Binary64.prec) = true)
    by (apply Z.leb_le; unfold Binary64.emax, Binary64.prec; lia).
  by rewrite Hfits.
Qed.

Lemma pos_iter_xO (p n : positive) :
  Z.pos (Pos.iter xO p n) = Z.pos p * 2 ^ Z.pos n
  /\ Z.pos (digits2_pos (Pos.iter xO p n)) = Z.pos (digits2_pos p) + Z.pos n.
Proof.
  induction n as [|n [IHm IHd]] using Pos.peano_ind.
  - simpl. split; lia.
  - rewrite Pos.iter_succ. cbn [digits2_pos].
    rewrite Pos2Z.inj_xO, !Pos2Z.inj_succ, IHm, IHd, Z.pow_succ_r by lia.
    split; lia.
Qed.

(** An integer below [2 ^ 53] is a binary64 number. *)
Lemma ofZ_pos (z : Z) :
  0 < z < 2 ^ 53 ->
  exists m e,
    Binary64.ofZ z = S754_finite false m e
    /\ -52 <= e <= 0
    /\ Z.pos m = z * 2 ^ (- e)
    /\ Zdigits2 (Z.pos m) + e = Zdigits2 z.
Proof.
  intros Hz. destruct z as [|p|p]; try lia.
  unfold Binary64.ofZ, binary_normalize, binary_round, shl_align.
  pose proof (Zdigits2_le (Z.pos p) 53 ltac:(lia) ltac:(lia)) as Hd.
  cbn [Zdigits2] in *.
  set (d := Z.pos (digits2_pos p)) in *.
  assert (Hd1 : 1 <= d) by (unfold d; lia).
  assert (Hfexp : fexp64 (d + 0) = d - 53) by (rewrite fexp64_eq; lia).
  rewrite Hfexp.
  destruct (d - 53 - 0) as [|k|k] eqn:Hk; try lia.
  - exists p, 0. split.
    + apply binary_round_aux_canonical; [|lia]. cbn [Zdigits2]. fold d.
      rewrite fexp64_eq. lia.
    + split; [lia|]. split; [simpl; lia|]. cbn [Zdigits2]. lia.
  - destruct (pos_iter_xO p k) as [Hm Hdigits].
    exists (Pos.iter xO p k), (d - 53). split.
    + apply binary_round_aux_canonical; [|lia]. cbn [Zdigits2].
      rewrite Hdigits. fold d. rewrite fexp64_eq. lia.
    + split; [lia|]. split.
      * rewrite Hm. f_equal. f_equal. lia.
      * cbn [Zdigits2]. rewrite Hdigits. fold d. lia.
Qed.

(** The quotient of two binary64 integers [a <= b] is at most one. *)
Lemma SFdiv_le_one (a b : Z) :
  0 < a <= b -> b < 2 ^ 53 ->
  AtMost 1 1 0 (SFdiv Binary64.prec Binary64.emax (Binary64.ofZ a) (Binary64.ofZ b)).
Proof.
  intros Ha Hb.
  destruct (ofZ_pos a ltac:(lia)) as (m1 & e1 & -> & He1 & Hm1 & Hd1).
  destruct (ofZ_pos b ltac:(lia)) as (m2 & e2 & -> & He2 & Hm2 & Hd2).
  cbn [SFdiv xorb].
  destruct (SFdiv_core_represents m1 m2 e1 e2) as (q & e & l & -> & Hle & Hfexp & Hrep).
  pose proof (Zdigits2_le a 53 ltac:(lia) ltac:(lia)) as Hda.
  assert (Hdb : 1 <= Zdigits2 b) by (destruct b; simpl; lia).
  assert (He : e <= 0).
  { pose proof (fexp64_le (Zdigits2 (Z.pos m1) + e1 - (Zdigits2 (Z.pos m2) + e2)) 53
                          ltac:(lia) ltac:(lia)). lia. }
  assert (HN : Z.pos m1 * 2 ^ (e1 - e2 - e) <= 1 * 2 ^ (- e) * Z.pos m2).
  { rewrite Hm1, Hm2.
    replace (a * 2 ^ (- e1) * 2 ^ (e1 - e2 - e)) with (a * 2 ^ (- e2 - e)).
    - replace (1 * 2 ^ (- e) * (b * 2 ^ (- e2))) with (b * 2 ^ (- e2 - e)).
      + pose proof (pow2_pos (- e2 - e) ltac:(lia)). nia.
      + replace (- e2 - e) with (- e + - e2) by lia.
        rewrite Z.pow_add_r by lia. ring.
    - replace (- e2 - e) with (- e1 + (e1 - e2 - e)) by lia.
      rewrite Z.pow_add_r by lia. ring. }
  destruct (binary_round_aux_le q e l _ _ 1 1 Hrep He ltac:(lia) ltac:(simpl; lia) HN)
    as [Hzero|(m & e' & Hfinite & He' & Hm)].
  - by left.
  - right. exists m, e'. split; [exact Hfinite|]. split; [lia|exact Hm].
Qed.

Lemma ofZ_100 : Binary64.ofZ 100 = S754_finite false 7036874417766400 (-46).
Proof. vm_compute. reflexivity. Qed.

Lemma ofZ_0 : Binary64.ofZ 0 = S754_zero false.
Proof. reflexivity. Qed.

Lemma SFmul_le_hundred (x : spec_float) :
  AtMost 1 1 0 x ->
  AtMost 100 7 (-46) (SFmul Binary64.prec Binary64.emax x (Binary64.ofZ 100)).
Proof.
  rewrite ofZ_100. intros [->|(m & e & -> & He & Hm)]; [by left|].
  cbn [SFmul xorb].
  assert (Hrep : Represents (shr_record_of_loc (Z.pos (m * 7036874417766400)) loc_Exact)
                     (Z.pos (m * 7036874417766400)) 1)
    by (apply represents_exact; lia).
  assert (HN : Z.pos (m * 7036874417766400) <= 100 * 2 ^ (- (e + -46)) * 1).
  { replace (- (e + -46)) with (- e + 46) by lia.
    rewrite Z.pow_add_r by lia.
    change (2 ^ 46) with 70368744177664.
    rewrite Pos2Z.inj_mul. lia. }
  assert (Hex : e + -46 <= 0) by lia.
  assert (Hk : 0 <= 7 <= 53) by lia.
  assert (HK : 0 <= 100 < 2 ^ 7) by (simpl; lia).
  destruct (binary_round_aux_le _ (e + -46) loc_Exact _ _ 100 7 Hrep Hex Hk HK HN)
    as [Hzero|(m' & e' & Hfinite & He' & Hm')].
  - by left.
  - right. exists m', e'. split; [exact Hfinite|]. split; [lia|exact Hm'].
Qed.

Lemma SFleb_finite (m m' : positive) (e e' : Z) :
  SFleb (S754_finite false m e) (S754_finite false m' e')
  = match e ?= e' with
    | Lt => true
    | Gt => false
    | Eq => match (m ?= m')%positive with Gt => false | _ => true end
    end.
Proof. unfold SFleb. simpl. by destruct (e ?= e'). Qed.

Lemma SFleb_zero_finite (m : positive) (e : Z) :
  SFleb (S754_zero false) (S754_finite false m e) = true.
Proof. reflexivity. Qed.

Lemma AtMost_inRange (x : spec_float) :
  AtMost 100 7 (-46) x -> Binary64.inRange x = true.
Proof.
  unfold Binary64.inRange. rewrite ofZ_100, ofZ_0.
  intros [->|(m & e & -> & He & Hm)]; [by rewrite SFleb_zero_finite|].
  rewrite SFleb_zero_finite, SFleb_finite. cbn [andb].
  assert (He46 : e <= -46) by lia.
  destruct (Z.compare_spec e (-46)) as [->|Hlt|Hgt]; [|reflexivity|lia].
  change (2 ^ (- -46)) with 70368744177664 in Hm.
  destruct (Pos.compare_spec m 7036874417766400) as [Heq|Hlt|Hgt]; try reflexivity.
  apply Pos2Z.pos_lt_pos in Hgt. lia.
Qed.

(** The width of the progress bar, computed on binary64 numbers, lies
    between 0 and 100 in every state of a card whose sequence has fewer
    than [2 ^ 53] items (an array has fewer than [2 ^ 32]). *)
Lemma progressWidth_binary64 (totalSteps step : Z) :
  0 <= step <= totalSteps -> totalSteps < 2 ^ 53 ->
  Binary64.inRange (Binary64.progressWidth totalSteps step) = true.
Proof.
  intros Hstep Htotal. unfold Binary64.progressWidth.
  destruct (Z.ltb_spec 0 totalSteps) as [Hpos|Hzero]; [|vm_compute; reflexivity].
  apply AtMost_inRange, SFmul_le_hundred.
  destruct (Z.eq_dec step 0) as [->|Hne].
  - destruct (ofZ_pos totalSteps ltac:(lia)) as (m & e & -> & _). by left.
  - apply SFdiv_le_one; lia.
Qed.

(** *** How far rounding moves a number *)

Lemma Zdigits2_gt (m : Z) : 0 <= m -> m < 2 ^ Zdigits2 m.
Proof.
  intros Hm. destruct m as [|p|p]; [reflexivity| |lia].
  cbn [Zdigits2]. rewrite digits2_pos_size.
  pose proof (Pos.size_gt p) as Hsize.
  apply Pos2Z.pos_lt_pos in Hsize. by rewrite Pos2Z.inj_pow in Hsize.
Qed.

(** Rounding to nearest moves a number by at most half a unit. *)
Lemma round_nearest_even_near (mrs : shr_record) (N D : Z) :
  Represents mrs N D ->
  let mr := round_nearest_even (shr_m mrs) (loc_of_shr_record mrs) in
  shr_m mrs <= mr <= shr_m mrs + 1 /\ 2 * Z.abs (mr * D - N) <= D.
Proof.
  destruct mrs as [m r s]. unfold Represents. cbn [shr_m shr_r shr_s].
  intros (HD & Hm & Hbounds & Hr & Hs).
  destruct r, s; cbn [loc_of_shr_record round_nearest_even];
    try destruct (Z.even m);
    rewrite ?Z.mul_add_distr_r, ?Z.mul_1_l;
    revert Hbounds Hr Hs; generalize (m * D); intros x Hbounds Hr Hs;
    (split; [lia|]); intuition (try discriminate; try lia).
Qed.

Lemma shr_fexp_spec (m e : Z) (l : location) (N D : Z) :
  Represents (shr_record_of_loc m l) N D ->
  exists n,
    n = Z.max 0 (fexp64 (Zdigits2 m + e) - e)
    /\ snd (shr_fexp Binary64.prec Binary64.emax m e l) = e + n
    /\ Represents (fst (shr_fexp Binary64.prec Binary64.emax m e l)) N (2 ^ n * D).
Proof.
  intros Hrep. unfold shr_fexp.
  destruct (shr_represents _ e (fexp64 (Zdigits2 m + e) - e) N D Hrep)
    as (n & _ & Hsnd & Hmax & Hrep').
  exists n. by split; [|split].
Qed.

Lemma near_zero_arith (A D P1 PE Qx : Z) :
  2 * A <= P1 * D -> 0 <= PE -> PE * P1 <= Qx -> 0 <= D ->
  2 * PE * A <= D * Qx.
Proof.
  intros HA HPE HP HD.
  transitivity (PE * (P1 * D)).
  - replace (2 * PE * A) with (PE * (2 * A)) by ring.
    by apply Z.mul_le_mono_nonneg_l.
  - replace (PE * (P1 * D)) with (PE * P1 * D) by ring.
    rewrite (Z.mul_comm D Qx). by apply Z.mul_le_mono_nonneg_r.
Qed.

Lemma near_finite_arith (m D N Q2 P1 P2 Qx PE mr : Z) :
  mr = m * P2 -> Qx = Q2 * P1 * P2 ->
  2 * Z.abs (mr * (P1 * D) - N) <= P1 * D ->
  PE * P1 <= Qx -> 0 < Q2 -> 0 <= PE -> 0 < D ->
  2 * PE * Z.abs (m * (D * Qx) - N * Q2) <= D * Qx * Q2.
Proof.
  intros -> -> Hnear HP HQ2 HPE HD.
  replace (m * (D * (Q2 * P1 * P2)) - N * Q2) with (Q2 * (m * P2 * (P1 * D) - N)) by ring.
  rewrite Z.abs_mul, (Z.abs_eq Q2) by lia.
  set (A := Z.abs (m * P2 * (P1 * D) - N)) in *.
  replace (2 * PE * (Q2 * A)) with (Q2 * (2 * PE * A)) by ring.
  replace (D * (Q2 * P1 * P2) * Q2) with (Q2 * (D * (Q2 * P1 * P2))) by ring.
  apply Z.mul_le_mono_nonneg_l; [lia|].
  apply (near_zero_arith A D P1 PE); try assumption. lia.
Qed.

Lemma Zdigits2_pow53 : Zdigits2 (2 ^ 53) = 54.
Proof. reflexivity. Qed.

(** The result of [binary_round_aux] on a number [N / D * 2 ^ ex] whose
    rounding takes place at an exponent of at most [E]: it differs from the
    number by at most half a unit of that exponent. *)
Lemma binary_round_aux_near (mx ex : Z) (lx : location) (N D E : Z) :
  Represents (shr_record_of_loc mx lx) N D ->
  ex <= E -> -1074 <= E -> E <= -1 ->
  mx < 2 ^ (E + 53 - ex) ->
  Within (binary_round_aux Binary64.prec Binary64.emax false mx ex lx)
         N (D * 2 ^ (- ex)) (1 - E).
Proof.
  intros Hrep Hex HE HE1 Hmx. unfold binary_round_aux.
  destruct (shr_fexp_spec mx ex lx N D Hrep) as (n1 & Hn1 & He1 & Hrep1).
  destruct (shr_fexp Binary64.prec Binary64.emax mx ex lx) as [mrs1 e1].
  cbn [fst snd] in *. subst e1.
  assert (Hmx0 : 0 <= mx /\ 0 < D /\ mx * D <= N < mx * D + D).
  { destruct Hrep as (HD & Hm & Hbounds & _). rewrite shr_m_of_loc in *. tauto. }
  destruct Hmx0 as (Hmx0 & HD & HN).
  pose proof (Zdigits2_le mx (E + 53 - ex) ltac:(lia) ltac:(lia)) as Hd.
  pose proof (Zdigits2_gt mx Hmx0) as Hgt.
  rewrite fexp64_eq in Hn1.
  set (d := Zdigits2 mx) in *.
  assert (Hn1' : 0 <= n1 /\ d - 53 <= n1 /\ ex + n1 <= E /\ -1074 <= ex + n1) by lia.
  clear Hn1. destruct Hn1' as (Hn0 & Hnd & HnE & Hnmin).
  pose proof (pow2_pos n1 Hn0) as HP1.
  (* the mantissa after the first shift has at most 53 digits *)
  assert (Hm1 : 0 <= shr_m mrs1 < 2 ^ 53).
  { destruct Hrep1 as (_ & Hm1 & Hb1 & _). split; [exact Hm1|].
    assert (Hlt : shr_m mrs1 * 2 ^ n1 < mx + 1).
    { apply (Z.mul_lt_mono_pos_r D); [exact HD|].
      replace (shr_m mrs1 * 2 ^ n1 * D) with (shr_m mrs1 * (2 ^ n1 * D)) by ring. lia. }
    assert (Hpow : 2 ^ d <= 2 ^ n1 * 2 ^ 53).
    { rewrite <- Z.pow_add_r by lia. apply Z.pow_le_mono_r; lia. }
    apply (Z.mul_lt_mono_pos_r (2 ^ n1)); [exact HP1|]. lia. }
  destruct (round_nearest_even_near mrs1 N (2 ^ n1 * D) Hrep1) as [Hmr Hnear].
  set (mr := round_nearest_even (shr_m mrs1) (loc_of_shr_record mrs1)) in *.
  assert (Hmr0 : 0 <= mr) by lia.
  destruct (shr_fexp_spec mr (ex + n1) loc_Exact mr 1 (represents_exact mr Hmr0))
    as (n2 & Hn2 & He2 & Hrep2).
  destruct (shr_fexp Binary64.prec Binary64.emax mr (ex + n1) loc_Exact) as [mrs2 e2].
  cbn [fst snd] in *. subst e2.
  (* the second shift is by at most one place, and it is exact *)
  assert (Hexact : (n2 = 0 \/ n2 = 1) /\ mr = shr_m mrs2 * 2 ^ n2).
  { rewrite fexp64_eq in Hn2.
    destruct (Z.eq_dec mr (2 ^ 53)) as [Heq|Hne].
    - rewrite Heq, Zdigits2_pow53 in Hn2.
      assert (Hn21 : n2 = 1) by lia. clear Hn2. subst n2. split; [by right|].
      destruct Hrep2 as (_ & _ & Hb2 & _). rewrite Heq in Hb2 |- *.
      change (2 ^ 1) with 2 in Hb2 |- *.
      change (2 ^ 53) with 9007199254740992 in Hb2 |- *. lia.
    - pose proof (Zdigits2_le mr 53 ltac:(lia) ltac:(lia)) as Hdr.
      assert (Hn20 : n2 = 0) by lia. clear Hn2. subst n2. split; [by left|].
      destruct Hrep2 as (_ & _ & Hb2 & _).
      change (2 ^ 0) with 1 in Hb2 |- *. lia. }
  destruct Hexact as [Hn2cases Hmreq].
  assert (Hn2pos : 0 <= n2) by lia.
  assert (Hpow1E : 2 ^ (1 - E) = 2 * 2 ^ (- E)).
  { replace (1 - E) with (1 + - E) by lia. rewrite Z.pow_add_r by lia. reflexivity. }
  assert (HPE : 2 ^ (- E) * 2 ^ n1 <= 2 ^ (- ex)).
  { rewrite <- Z.pow_add_r by lia. apply Z.pow_le_mono_r; lia. }
  pose proof (pow2_pos (- E) ltac:(lia)) as HPEpos.
  destruct (shr_m mrs2) as [|m|m] eqn:Hshr.
  - cbn [Within]. rewrite Hpow1E.
    assert (Hmr00 : mr = 0) by lia. rewrite Hmr00 in Hnear.
    replace (0 * (2 ^ n1 * D) - N) with (- N) in Hnear by ring.
    rewrite Z.abs_opp in Hnear.
    apply (near_zero_arith (Z.abs N) D (2 ^ n1)); lia.
  - assert (Hfits : (ex + n1 + n2 <=? Binary64.emax - Binary64.prec) = true).
    { apply Z.leb_le. unfold Binary64.emax, Binary64.prec. lia. }
    rewrite Hfits. cbn [Within]. split; [lia|]. rewrite Hpow1E.
    apply (near_finite_arith (Z.pos m) D N (2 ^ (- (ex + n1 + n2))) (2 ^ n1) (2 ^ n2)
                             (2 ^ (- ex)) (2 ^ (- E)) mr); try assumption; try lia.
    all: try (apply pow2_pos; lia).
    rewrite <- !Z.pow_add_r by lia. f_equal. lia.
  - destruct Hrep2 as (_ & Hneg & _). lia.
Qed.

(** The same rational, written with another numerator and denominator. *)
Lemma Within_scale (r : spec_float) (N D N' D' k : Z) :
  0 < D -> 0 < D' -> N * D' = N' * D ->
  Within r N D k -> Within r N' D' k.
Proof.
  intros HD HD' Heq. pose proof (Z.pow_nonneg 2 k ltac:(lia)) as Hk.
  destruct r as [[]| | |[] m e]; cbn [Within]; try tauto.
  - intros Hnear.
    assert (Habs : Z.abs N * D' = Z.abs N' * D).
    { transitivity (Z.abs (N * D')).
      - by rewrite Z.abs_mul, (Z.abs_eq D') by lia.
      - by rewrite Heq, Z.abs_mul, (Z.abs_eq D) by lia. }
    apply (Z.mul_le_mono_pos_r _ _ D); [exact HD|].
    replace (2 ^ k * Z.abs N' * D) with (D' * (2 ^ k * Z.abs N)) by (rewrite <- Z.mul_assoc, <- Habs; ring).
    apply Z.mul_le_mono_nonneg_l; lia.
  - intros [He Hnear]. split; [exact He|].
    set (P := 2 ^ (- e)) in *.
    assert (HP : 0 < P) by (apply pow2_pos; lia).
    assert (Habs : Z.abs (Z.pos m * D - N * P) * D' = Z.abs (Z.pos m * D' - N' * P) * D).
    { transitivity (Z.abs ((Z.pos m * D - N * P) * D')).
      - by rewrite Z.abs_mul, (Z.abs_eq D') by lia.
      - replace ((Z.pos m * D - N * P) * D') with (Z.pos m * D * D' - N * D' * P) by ring.
        rewrite Heq.
        replace (Z.pos m * D * D' - N' * D * P) with ((Z.pos m * D' - N' * P) * D) by ring.
        by rewrite Z.abs_mul, (Z.abs_eq D) by lia. }
    apply (Z.mul_le_mono_pos_r _ _ D); [exact HD|].
    replace (2 ^ k * Z.abs (Z.pos m * D' - N' * P) * D)
      with (D' * (2 ^ k * Z.abs (Z.pos m * D - N * P)))
      by (rewrite <- Z.mul_assoc, <- Habs; ring).
    replace (D' * P * D) with (D' * (D * P)) by ring.
    apply Z.mul_le_mono_nonneg_l; lia.
Qed.

Lemma Zdigits2_mono (a b : Z) : 0 <= a <= b -> Zdigits2 a <= Zdigits2 b.
Proof.
  intros Hab. pose proof (Zdigits2_gt b ltac:(lia)) as Hb.
  apply Zdigits2_le; [|lia]. destruct b; simpl; lia.
Qed.

(** The quotient of two binary64 integers [a < b] is within [2 ^ (-54)] of
    [a / b]. *)
Lemma SFdiv_near (a b : Z) :
  0 < a < b -> b < 2 ^ 53 ->
  Within (SFdiv Binary64.prec Binary64.emax (Binary64.ofZ a) (Binary64.ofZ b)) a b 54.
Proof.
  intros Ha Hb.
  destruct (ofZ_pos a ltac:(lia)) as (m1 & e1 & -> & He1 & Hm1 & Hd1).
  destruct (ofZ_pos b ltac:(lia)) as (m2 & e2 & -> & He2 & Hm2 & Hd2).
  cbn [SFdiv xorb].
  destruct (SFdiv_core_represents m1 m2 e1 e2) as (q & e & l & -> & Hle & Hfexp & Hrep).
  pose proof (Zdigits2_mono a b ltac:(lia)) as Hdigits.
  assert (He : e <= -53).
  { pose proof (fexp64_le (Zdigits2 (Z.pos m1) + e1 - (Zdigits2 (Z.pos m2) + e2)) 0
                          ltac:(lia) ltac:(lia)). lia. }
  set (P := 2 ^ (- e2 - e)).
  assert (HP : 0 < P) by (apply pow2_pos; lia).
  assert (HN : Z.pos m1 * 2 ^ (e1 - e2 - e) = a * P).
  { rewrite Hm1. unfold P.
    replace (- e2 - e) with (- e1 + (e1 - e2 - e)) by lia.
    rewrite Z.pow_add_r by lia. ring. }
  assert (HD : Z.pos m2 * 2 ^ (- e) = b * P).
  { rewrite Hm2. unfold P.
    replace (- e2 - e) with (- e2 + - e) by lia.
    rewrite Z.pow_add_r by lia. ring. }
  assert (Hq : q < 2 ^ (-53 + 53 - e)).
  { replace (-53 + 53 - e) with (- e) by lia.
    destruct Hrep as (_ & _ & Hbounds & _). rewrite shr_m_of_loc in Hbounds.
    apply (Z.mul_lt_mono_pos_r (Z.pos m2)); [lia|].
    rewrite (Z.mul_comm (2 ^ (- e))), HD.
    rewrite HN in Hbounds.
    assert (a * P < b * P) by (apply Z.mul_lt_mono_pos_r; lia). lia. }
  pose proof (binary_round_aux_near q e l _ _ (-53) Hrep He ltac:(lia) ltac:(lia) Hq)
    as Hnear.
  change (1 - -53) with 54 in Hnear.
  assert (HDpos : 0 < Z.pos m2 * 2 ^ (- e))
    by (apply Z.mul_pos_pos; [lia|apply pow2_pos; lia]).
  apply (Within_scale _ _ _ a b 54 HDpos ltac:(lia)) in Hnear; [exact Hnear|].
  rewrite HN, HD. ring.
Qed.

(** A binary64 integer divided by itself is one. *)
Lemma SFdiv_same (a : Z) :
  0 < a < 2 ^ 53 ->
  SFdiv Binary64.prec Binary64.emax (Binary64.ofZ a) (Binary64.ofZ a)
  = S754_finite false 4503599627370496 (-52).
Proof.
  intros Ha. destruct (ofZ_pos a Ha) as (m & e & -> & _).
  cbn [SFdiv xorb]. unfold SFdiv_core_binary.
  replace (Zdigits2 (Z.pos m) + e - (Zdigits2 (Z.pos m) + e)) with 0 by lia.
  rewrite Z.sub_diag.
  change (Z.min (fexp Binary64.prec Binary64.emax 0) 0) with (-53).
  change (0 - -53) with 53.
  cbv iota.
  assert (Hdiv : Z.div_eucl (Z.shiftl (Z.pos m) 53) (Z.pos m) = (2 ^ 53, 0)).
  { rewrite Z.shiftl_mul_pow2 by lia.
    pose proof (Z_div_mod (Z.pos m * 2 ^ 53) (Z.pos m) ltac:(lia)) as Hspec.
    destruct (Z.div_eucl (Z.pos m * 2 ^ 53) (Z.pos m)) as [q r].
    destruct Hspec as [Heq Hr].
    assert (Hq : q = 2 ^ 53) by nia.
    subst q. f_equal. lia. }
  rewrite Hdiv.
  assert (Hloc : new_location (Z.pos m) 0 = loc_Exact).
  { unfold new_location, new_location_even, new_location_odd.
    by destruct (Z.even (Z.pos m)). }
  rewrite Hloc. vm_compute. reflexivity.
Qed.

Lemma SFmul_one_hundred :
  SFmul Binary64.prec Binary64.emax (S754_finite false 4503599627370496 (-52))
        (Binary64.ofZ 100)
  = Binary64.ofZ 100.
Proof. vm_compute. reflexivity. Qed.

(** A binary64 number of at most one, times 100, is within [2 ^ (-47)] of the
    product. *)
Lemma SFmul_hundred_near (m : positive) (e : Z) :
  e <= 0 -> Z.pos m <= 2 ^ (- e) ->
  Within (SFmul Binary64.prec Binary64.emax (S754_finite false m e) (Binary64.ofZ 100))
         (100 * Z.pos m) (2 ^ (- e)) 47.
Proof.
  intros He Hm. rewrite ofZ_100. cbn [SFmul xorb].
  pose proof (pow2_pos (- e) ltac:(lia)) as HP.
  assert (Hmx : Z.pos (m * 7036874417766400) = Z.pos m * 100 * 2 ^ 46).
  { rewrite Pos2Z.inj_mul. change (2 ^ 46) with 70368744177664. lia. }
  assert (Hpow : 2 ^ (- (e + -46)) = 2 ^ 46 * 2 ^ (- e)).
  { replace (- (e + -46)) with (46 + - e) by lia. by rewrite Z.pow_add_r by lia. }
  assert (Hrep : Represents (shr_record_of_loc (Z.pos (m * 7036874417766400)) loc_Exact)
                     (Z.pos (m * 7036874417766400)) 1)
    by (apply represents_exact; lia).
  assert (Hlt : Z.pos (m * 7036874417766400) < 2 ^ (-46 + 53 - (e + -46))).
  { replace (-46 + 53 - (e + -46)) with (53 + - e) by lia.
    rewrite Z.pow_add_r, Hmx by lia.
    change (2 ^ 46) with 70368744177664. change (2 ^ 53) with 9007199254740992. lia. }
  pose proof (binary_round_aux_near _ (e + -46) loc_Exact _ _ (-46) Hrep
                ltac:(lia) ltac:(lia) ltac:(lia) Hlt) as Hnear.
  change (1 - -46) with 47 in Hnear.
  apply (Within_scale _ _ _ (100 * Z.pos m) (2 ^ (- e)) 47) in Hnear;
    [exact Hnear| | |].
  - rewrite Hpow. pose proof (pow2_pos 46 ltac:(lia)). lia.
  - exact HP.
  - rewrite Hmx, Hpow. ring.
Qed.

(** The two rounding errors add up to less than [2 ^ (-46)]. *)
Lemma width_error_zero (a b m A : Z) :
  0 <= a -> 0 < b -> 0 < A -> 0 <= m ->
  2 ^ 54 * Z.abs (m * b - a * A) <= b * A ->
  2 ^ 47 * Z.abs (100 * m) <= A ->
  2 ^ 46 * Z.abs (100 * a) <= b.
Proof.
  intros Ha Hb HA Hm Hdiv Hmul.
  change (2 ^ 54) with 18014398509481984 in Hdiv.
  change (2 ^ 47) with 140737488355328 in Hmul.
  change (2 ^ 46) with 70368744177664.
  rewrite Z.abs_eq in Hmul |- * by lia.
  assert (Hv : a * A <= m * b + Z.abs (m * b - a * A)) by lia.
  apply (Z.mul_le_mono_pos_r _ _ A); [exact HA|].
  assert (Hmb : 140737488355328 * 100 * (m * b) <= b * A).
  { replace (140737488355328 * 100 * (m * b)) with (b * (140737488355328 * (100 * m))) by ring.
    apply Z.mul_le_mono_nonneg_l; lia. }
  replace (70368744177664 * (100 * a) * A) with (70368744177664 * 100 * (a * A)) by ring.
  revert Hdiv Hv Hmb. generalize (Z.abs (m * b - a * A)), (m * b), (a * A), (b * A).
  intros v mb aA bA Hdiv Hv Hmb. lia.
Qed.

Lemma width_error_finite (a b m A m' B : Z) :
  0 < b -> 0 < A -> 0 < B ->
  2 ^ 54 * Z.abs (m * b - a * A) <= b * A ->
  2 ^ 47 * Z.abs (m' * A - 100 * m * B) <= A * B ->
  2 ^ 46 * Z.abs (m' * b - 100 * a * B) <= b * B.
Proof.
  intros Hb HA HB Hdiv Hmul.
  change (2 ^ 54) with 18014398509481984 in Hdiv.
  change (2 ^ 47) with 140737488355328 in Hmul.
  change (2 ^ 46) with 70368744177664.
  set (t := m' * b - 100 * a * B).
  set (u := m' * A - 100 * m * B) in *.
  set (v := m * b - a * A) in *.
  assert (Ht : A * Z.abs t <= b * Z.abs u + 100 * (B * Z.abs v)).
  { rewrite <- (Z.abs_eq A) at 1 by lia. rewrite <- Z.abs_mul.
    replace (A * t) with (b * u + 100 * B * v) by (unfold t, u, v; ring).
    etransitivity; [apply Z.abs_triangle|].
    rewrite !Z.abs_mul, (Z.abs_eq b), (Z.abs_eq B) by lia.
    change (Z.abs 100) with 100. lia. }
  assert (Hu : b * (140737488355328 * Z.abs u) <= b * (A * B))
    by (apply Z.mul_le_mono_nonneg_l; lia).
  assert (Hv : B * (18014398509481984 * Z.abs v) <= B * (b * A))
    by (apply Z.mul_le_mono_nonneg_l; lia).
  assert (HW : 0 < A * (b * B)) by (apply Z.mul_pos_pos; [lia|by apply Z.mul_pos_pos]).
  apply (Z.mul_le_mono_pos_l _ _ A); [exact HA|].
  replace (A * (70368744177664 * Z.abs t)) with (70368744177664 * (A * Z.abs t)) by ring.
  replace (b * (A * B)) with (A * (b * B)) in Hu by ring.
  replace (B * (b * A)) with (A * (b * B)) in Hv by ring.
  replace (b * (140737488355328 * Z.abs u)) with (140737488355328 * (b * Z.abs u))
    in Hu by ring.
  replace (B * (18014398509481984 * Z.abs v)) with (18014398509481984 * (B * Z.abs v))
    in Hv by ring.
  revert Ht Hu Hv HW.
  generalize (A * Z.abs t), (b * Z.abs u), (B * Z.abs v), (A * (b * B)).
  intros T U V W Ht Hu Hv HW. lia.
Qed.

(** The width of the progress bar, computed on binary64 numbers, is within
    [2 ^ (-46)] of [100 * step / totalSteps]. *)
Lemma progressWidth_near (totalSteps step : Z) :
  0 <= step <= totalSteps -> 0 < totalSteps < 2 ^ 53 ->
  Within (Binary64.progressWidth totalSteps step) (100 * step) totalSteps 46.
Proof.
  intros Hstep Htotal. unfold Binary64.progressWidth.
  destruct (Z.ltb_spec 0 totalSteps) as [_|Hle]; [|lia].
  destruct (Z.eq_dec step 0) as [->|Hne].
  - destruct (ofZ_pos totalSteps Htotal) as (m & e & -> & _).
    rewrite ofZ_0, ofZ_100. cbn [SFdiv SFmul xorb Within]. simpl. lia.
  - destruct (Z.eq_dec step totalSteps) as [->|Hlt].
    + rewrite SFdiv_same, SFmul_one_hundred, ofZ_100 by lia.
      cbn [Within]. split; [lia|].
      change (2 ^ (- -46)) with 70368744177664.
      replace (7036874417766400 * totalSteps - 100 * totalSteps * 70368744177664)
        with 0 by ring.
      simpl. lia.
    + pose proof (SFdiv_near step totalSteps ltac:(lia) ltac:(lia)) as Hdiv.
      pose proof (SFdiv_le_one step totalSteps ltac:(lia) ltac:(lia)) as Hone.
      destruct Hone as [Hzero|(m & e & Hfinite & He & Hm)].
      * rewrite Hzero in Hdiv |- *. rewrite ofZ_100.
        cbn [SFmul xorb Within] in Hdiv |- *.
        change (2 ^ 54) with 18014398509481984 in Hdiv.
        change (2 ^ 46) with 70368744177664. lia.
      * rewrite Hfinite in Hdiv |- *.
        cbn [Within] in Hdiv. destruct Hdiv as [He0 Hdiv].
        pose proof (SFmul_hundred_near m e He0 ltac:(lia)) as Hmul.
        pose proof (pow2_pos (- e) ltac:(lia)) as HA.
        destruct (SFmul Binary64.prec Binary64.emax (S754_finite false m e)
                        (Binary64.ofZ 100)) as [[]| | |[] m' e'];
          cbn [Within] in Hmul |- *; try tauto.
        -- apply (width_error_zero step totalSteps (Z.pos m) (2 ^ (- e)));
             solve [assumption | lia].
        -- destruct Hmul as [He' Hmul]. split; [exact He'|].
           pose proof (pow2_pos (- e') ltac:(lia)) as HB.
           apply (width_error_finite step totalSteps (Z.pos m) (2 ^ (- e)));
             solve [assumption | lia].
Qed.

(** From the integers to the rationals. *)
Lemma Within_toQ (r : spec_float) (N : Z) (D : positive) :
  Within r N (Z.pos D) 46 ->
  (Qabs (Binary64.toQ r - (N # D)) <= 1 # 70368744177664)%Q.
Proof.
  intros Hnear. apply Qabs_Qle_condition.
  destruct r as [[]| | |[] m e]; cbn [Within] in Hnear; try tauto.
  - change (2 ^ 46) with 70368744177664 in Hnear.
    unfold Binary64.toQ, Qle, Qminus, Qplus, Qopp. cbn [Qnum Qden].
    rewrite Pos.mul_1_l. lia.
  - destruct Hnear as [He Hnear].
    change (2 ^ 46) with 70368744177664 in Hnear.
    destruct e as [|p|p]; [| lia |].
    + change (2 ^ (- 0)) with 1 in Hnear.
      unfold Binary64.toQ, Qle, Qminus, Qplus, Qopp, inject_Z. cbn [Qnum Qden].
      rewrite Pos.mul_1_l. lia.
    + change (- Z.neg p) with (Z.pos p) in Hnear.
      rewrite <- Pos2Z.inj_pow in Hnear.
      unfold Binary64.toQ, Qle, Qminus, Qplus, Qopp. cbn [Qnum Qden].
      rewrite Pos2Z.inj_mul.
      revert Hnear. generalize (Z.pos (2 ^ p)). intros P Hnear.
      replace (Z.pos m * Z.pos D + - N * P) with (Z.pos m * Z.pos D - N * P) by ring.
      rewrite (Z.mul_comm P (Z.pos D)). lia.
Qed.

Lemma toQ_finite (m : positive) (e : Z) :
  e <= 0 ->
  Binary64.toQ (S754_finite false m e) = Qmake (Z.pos m) (Z.to_pos (2 ^ (- e))).
Proof.
  intros He. destruct e as [|p|p]; [reflexivity|lia|].
  cbn [Binary64.toQ]. f_equal.
  change (- Z.neg p) with (Z.pos p). by rewrite <- Pos2Z.inj_pow.
Qed.

Lemma widthAsSpecified_pos (totalSteps : positive) (step : Z) :
  (widthAsSpecified (Z.pos totalSteps) step == (100 * step) # totalSteps)%Q.
Proof.
  unfold widthAsSpecified. cbn [Z.ltb Z.compare].
  unfold Qeq, Qdiv, Qmult, Qinv, inject_Z. simpl. lia.
Qed.

Lemma progressWidth_at_most (totalSteps step : Z) :
  0 <= step <= totalSteps -> 0 < totalSteps < 2 ^ 53 ->
  AtMost 100 7 (-46) (Binary64.progressWidth totalSteps step).
Proof.
  intros Hstep Htotal. unfold Binary64.progressWidth.
  destruct (Z.ltb_spec 0 totalSteps) as [Hpos|Hzero]; [|lia].
  apply SFmul_le_hundred.
  destruct (Z.eq_dec step 0) as [->|Hne].
  - destruct (ofZ_pos totalSteps ltac:(lia)) as (m & e & -> & _). by left.
  - apply SFdiv_le_one; lia.
Qed.

Lemma AtMost_toQ (x : spec_float) :
  AtMost 100 7 (-46) x -> (0 <= Binary64.toQ x <= 100)%Q.
Proof.
  intros [->|(m & e & -> & He & Hm)]; [split; discriminate|].
  rewrite toQ_finite by lia.
  pose proof (pow2_pos (- e) ltac:(lia)) as HP.
  unfold Qle. cbn [Qnum Qden]. rewrite Z2Pos.id by exact HP. lia.
Qed.

(** One third of the way the page computes [33.33333333333333], which is not
    the rational [100 / 3]. *)
Lemma progressWidth_third :
  Binary64.progressWidth 3 1 = S754_finite false 4691249611844266 (-47)
  /\ ~ (Binary64.toQ (Binary64.progressWidth 3 1) == widthAsSpecified 3 1)%Q.
Proof.
  assert (Hvalue : Binary64.progressWidth 3 1 = S754_finite false 4691249611844266 (-47))
    by (vm_compute; reflexivity).
  split; [exact Hvalue|]. rewrite Hvalue. vm_compute. discriminate.
Qed.

(** C10.  The width of the progress bar is defined in every state with
    [0 <= step <= totalSteps].  The page computes it on binary64 numbers:
    when [totalSteps > 0] it is the quotient of [step] by [totalSteps] times
    100, and the divisor is a number that is not zero; when [totalSteps = 0]
    it is 0, where the quotient itself would not be a number.  For every
    sequence of fewer than [2 ^ 53] items (an array has fewer than
    [2 ^ 32]) the width is a number between 0 and 100, and it differs from
    the exact value of [(step / totalSteps) * 100] by at most [2 ^ (-46)]. *)
Theorem progressWidth_bounded (totalSteps step : Z) :
  0 <= step <= totalSteps ->
  (0 < totalSteps ->
   Binary64.progressWidth totalSteps step
   = SFmul Binary64.prec Binary64.emax
           (SFdiv Binary64.prec Binary64.emax
                  (Binary64.ofZ step) (Binary64.ofZ totalSteps))
           (Binary64.ofZ 100))
  /\ (totalSteps = 0 ->
      Binary64.progressWidth totalSteps step = S754_zero false
      /\ SFmul Binary64.prec Binary64.emax
               (SFdiv Binary64.prec Binary64.emax
                      (Binary64.ofZ step) (Binary64.ofZ totalSteps))
               (Binary64.ofZ 100)
         = S754_nan)
  /\ (totalSteps < 2 ^ 53 ->
      (0 < totalSteps ->
       exists m e, Binary64.ofZ totalSteps = S754_finite false m e)
      /\ Binary64.inRange (Binary64.progressWidth totalSteps step) = true
      /\ (0 <= Binary64.toQ (Binary64.progressWidth totalSteps step) <= 100)%Q
      /\ (Qabs (Binary64.toQ (Binary64.progressWidth totalSteps step)
                - widthAsSpecified totalSteps step)
          <= 1 # 70368744177664)%Q).
Proof.
  intros Hstep. split; [|split].
  - intros Htotal. unfold Binary64.progressWidth.
    destruct (Z.ltb_spec 0 totalSteps); [reflexivity|lia].
  - intros ->. assert (step = 0) as -> by lia. split; reflexivity.
  - intros Hbound. split; [|split; [|split]].
    + intros Htotal. destruct (ofZ_pos totalSteps ltac:(lia)) as (m & e & Hm & _).
      by exists m, e.
    + by apply progressWidth_binary64.
    + destruct (Z.eq_dec totalSteps 0) as [->|Hne]; [split; discriminate|].
      apply AtMost_toQ, progressWidth_at_most; lia.
    + destruct totalSteps as [|total|total]; [vm_compute; discriminate| |lia].
      rewrite widthAsSpecified_pos.
      apply Within_toQ, progressWidth_near; lia.
Qed.

Lemma progressWidth_bounded_witness :
  Binary64.progressWidth 4 3
  = SFmul Binary64.prec Binary64.emax
          (SFdiv Binary64.prec Binary64.emax (Binary64.ofZ 3) (Binary64.ofZ 4))
          (Binary64.ofZ 100)
  /\ Binary64.inRange (Binary64.progressWidth 4 3) = true
  /\ (Qabs (Binary64.toQ (Binary64.progressWidth 4 3) - widthAsSpecified 4 3)
      <= 1 # 70368744177664)%Q.
Proof.
  pose proof (progressWidth_bounded 4 3 ltac:(lia)) as (Hvalue & _ & Hbounds).
  destruct (Hbounds eq_refl) as (_ & Hrange & _ & Hnear).
  split; [apply Hvalue; lia|]. split; [exact Hrange|exact Hnear].
Defined.

(** * Further properties of the pages *)

(** ** Expanding and collapsing cards *)

Lemma elem_of_toggleSession (x sessionId : string) (expandedSessions : gset string) :
  x ∈ toggleSession sessionId expandedSessions
  <-> (x = sessionId /\ x ∉ expandedSessions) \/ (x <> sessionId /\ x ∈ expandedSessions).
Proof.
  unfold toggleSession.
  destruct (bool_decide_reflect (sessionId ∈ expandedSessions)) as [Hin|Hout].
  - rewrite elem_of_difference, elem_of_singleton.
    destruct (decide (x = sessionId)) as [->|Hne]; tauto.
  - rewrite elem_of_union, elem_of_singleton.
    destruct (decide (x = sessionId)) as [->|Hne]; tauto.
Qed.

(** X1.  Toggling a session twice gives back the set of expanded sessions;
    one toggle flips the membership of that session and of no other. *)
Theorem toggleSession_twice (sessionId : string) (expandedSessions : gset string) :
  toggleSession sessionId (toggleSession sessionId expandedSessions) = expandedSessions
  /\ (sessionId ∈ toggleSession sessionId expandedSessions <-> sessionId ∉ expandedSessions)
  /\ (forall other,
         other <> sessionId ->
         (other ∈ toggleSession sessionId expandedSessions <-> other ∈ expandedSessions)).
Proof.
  split; [|split].
  - apply set_eq. intros x. rewrite !elem_of_toggleSession.
    destruct (decide (x = sessionId)) as [Heq|Hne].
    + subst x. destruct (decide (sessionId ∈ expandedSessions)); tauto.
    + destruct (decide (x ∈ expandedSessions)); tauto.
  - rewrite elem_of_toggleSession. tauto.
  - intros other Hother. rewrite elem_of_toggleSession. tauto.
Qed.

Lemma toggleSession_twice_witness :
  "intro" ∈ toggleSession "trust" {[ "intro" ]}
  <-> "intro" ∈ ({[ "intro" ]} : gset string).
Proof.
  apply (proj2 (proj2 (toggleSession_twice "trust" {[ "intro" ]}))).
  discriminate.
Defined.

(** A card that is collapsed shows nothing: its handlers are out of reach. *)
Lemma handle_collapsed (session : Session.t) (ev : Page.Event) (page : Page.t) :
  Page.isExpanded session page = false ->
  (forall sessionId, ev <> Page.ToggleClick sessionId) ->
  Page.handle session ev page = page.
Proof.
  intros Hcollapsed Hev. destruct ev as [sessionId| | | |key]; simpl.
  - by destruct (Hev sessionId).
  - by rewrite Hcollapsed.
  - by rewrite Hcollapsed.
  - by rewrite Hcollapsed.
  - by rewrite Hcollapsed.
Qed.

Lemma handle_other_toggle (session : Session.t) (sessionId : string) (page : Page.t) :
  sessionId <> Session.id session ->
  Page.isExpanded session (Page.handle session (Page.ToggleClick sessionId) page)
  = Page.isExpanded session page
  /\ Page.step (Page.handle session (Page.ToggleClick sessionId) page) = Page.step page.
Proof.
  intros Hother.
  assert (Hsame : bool_decide (Session.id session
                               ∈ toggleSession sessionId (Page.expandedSessions page))
                  = Page.isExpanded session page).
  { unfold Page.isExpanded. apply bool_decide_ext.
    rewrite elem_of_toggleSession. split; [|right; split; congruence].
    intros [[Heq _]|[_ Hin]]; [congruence|exact Hin]. }
  simpl. unfold Page.isExpanded at 1. simpl. rewrite Hsame.
  split; [reflexivity|]. by rewrite eqb_reflx.
Qed.

Lemma classic_toggle (ev : Page.Event) :
  (exists sessionId, ev = Page.ToggleClick sessionId)
  \/ (forall sessionId, ev <> Page.ToggleClick sessionId).
Proof. destruct ev; eauto; right; discriminate. Qed.

(** X2.  A collapsed card neither reacts to clicks and keys meant for its
    content nor to the header of another card: only a click on its own header
    changes anything about it. *)
Theorem collapsed_card_ignores_input (session : Session.t) (ev : Page.Event)
        (page : Page.t) :
  Page.isExpanded session page = false ->
  ev <> Page.ToggleClick (Session.id session) ->
  Page.isExpanded session (Page.handle session ev page) = false
  /\ Page.step (Page.handle session ev page) = Page.step page
  /\ ((forall sessionId, ev <> Page.ToggleClick sessionId) ->
      Page.handle session ev page = page).
Proof.
  intros Hcollapsed Hev.
  destruct (classic_toggle ev) as [[sessionId ->]|Hno].
  - destruct (handle_other_toggle session sessionId page) as [Hexp Hstep];
      [congruence|].
    rewrite Hexp, Hstep. split; [exact Hcollapsed|]. split; [reflexivity|].
    intros Hnone. by destruct (Hnone sessionId).
  - rewrite (handle_collapsed session ev page Hcollapsed Hno). tauto.
Qed.

Lemma collapsed_card_ignores_input_witness :
  Page.step (Page.handle groupingSession (Page.KeyDown "ArrowRight") Page.initial)
  = Page.step Page.initial.
Proof.
  assert (Hcollapsed : Page.isExpanded groupingSession Page.initial = false)
    by (vm_compute; reflexivity).
  apply (collapsed_card_ignores_input groupingSession (Page.KeyDown "ArrowRight")
           Page.initial Hcollapsed).
  discriminate.
Defined.

Lemma handle_fresh (session : Session.t) (ev : Page.Event) (page : Page.t) :
  Fresh session page -> Fresh session (Page.handle session ev page).
Proof.
  intros Hfresh Hafter.
  destruct (Page.isExpanded session page) eqn:Hbefore.
  - by apply handle_collapse.
  - destruct (classic_toggle ev) as [[sessionId ->]|Hno].
    + destruct (decide (sessionId = Session.id session)) as [->|Hother].
      * exfalso. revert Hafter. unfold Page.isExpanded in *. simpl.
        by rewrite toggleSession_own, Hbefore.
      * destruct (handle_other_toggle session sessionId page Hother) as [_ ->].
        by apply Hfresh.
    + rewrite (handle_collapsed session ev page Hbefore Hno). by apply Hfresh.
Qed.

Lemma run_fresh (session : Session.t) (evs : list Page.Event) :
  forall page, Fresh session page -> Fresh session (Page.run session evs page).
Proof.
  induction evs as [|ev evs IH]; intros page Hfresh; [exact Hfresh|].
  simpl. apply IH. by apply handle_fresh.
Qed.

(** X3.  Whatever the user has done on the page, a card that is collapsed is
    at step 0: expanding it again always starts from the beginning. *)
Theorem collapsed_card_is_reset (session : Session.t) (evs : list Page.Event) :
  Page.isExpanded session (Page.run session evs Page.initial) = false ->
  Page.step (Page.run session evs Page.initial) = 0.
Proof. apply run_fresh. intros _. reflexivity. Qed.

Lemma collapsed_card_is_reset_witness :
  Page.step (Page.run groupingSession
               [Page.ToggleClick "trust"; Page.AdvanceClick; Page.AdvanceClick;
                Page.ToggleClick "trust"]
               Page.initial)
  = 0.
Proof.
  apply (collapsed_card_is_reset groupingSession
           [Page.ToggleClick "trust"; Page.AdvanceClick; Page.AdvanceClick;
            Page.ToggleClick "trust"]).
  vm_compute. reflexivity.
Defined.

(** ** Stepping through a card *)

Lemma run_app (session : Session.t) (evs evs' : list Page.Event) (page : Page.t) :
  Page.run session (evs ++ evs') page
  = Page.run session evs' (Page.run session evs page).
Proof. unfold Page.run. apply fold_left_app. Qed.

Lemma run_advance_clicks (session : Session.t) (k : nat) :
  forall page,
    Page.isExpanded session page = true ->
    Page.run session (replicate k Page.AdvanceClick) page
    = Page.mk (Page.expandedSessions page)
              (Nat.iter k (SessionCard.advance (SessionCard.totalSteps session))
                        (Page.step page)).
Proof.
  induction k as [|k IH]; intros page Hexpanded.
  - by destruct page.
  - replace (S k) with (k + 1)%nat by lia.
    rewrite replicate_add, run_app, IH by exact Hexpanded.
    rewrite Nat.add_1_r. simpl.
    unfold Page.isExpanded in *. simpl. by rewrite Hexpanded.
Qed.

(** X4.  On a page where nothing has been done yet, a click on the header of
    a card followed by [k] clicks on its content, for [k] up to the length of
    the sequence, leaves the card expanded at step [k]; "Show all" then
    takes it to the last step. *)
Theorem clicks_reveal (session : Session.t) (k : nat) :
  Z.of_nat k <= SessionCard.totalSteps session ->
  let page :=
    Page.run session
             (Page.ToggleClick (Session.id session) :: replicate k Page.AdvanceClick)
             Page.initial in
  Page.isExpanded session page = true
  /\ Page.step page = Z.of_nat k
  /\ Page.step (Page.handle session Page.ShowAllClick page)
     = SessionCard.totalSteps session.
Proof.
  intros Hk page.
  set (opened := Page.handle session (Page.ToggleClick (Session.id session))
                             Page.initial).
  assert (Hopened : Page.isExpanded session opened = true
                    /\ Page.step opened = 0).
  { unfold opened, Page.isExpanded. simpl. rewrite toggleSession_own. simpl.
    split; [reflexivity|].
    unfold Page.isExpanded. simpl. reflexivity. }
  destruct Hopened as [Hexpanded Hstep].
  assert (Hpage : page = Page.mk (Page.expandedSessions opened) (Z.of_nat k)).
  { unfold page. change (Page.run session (?ev :: ?evs) ?p)
      with (Page.run session evs (Page.handle session ev p)).
    fold opened. rewrite run_advance_clicks by exact Hexpanded.
    rewrite Hstep. f_equal. apply iter_advance. lia. }
  assert (Hexp : Page.isExpanded session page = true) by (by rewrite Hpage).
  split; [exact Hexp|]. split; [by rewrite Hpage|].
  simpl. rewrite Hexp. simpl. unfold SessionCard.allRevealed, SessionCard.revealAll.
  rewrite Hpage. simpl. case_match; simpl; lia.
Qed.

Lemma clicks_reveal_witness :
  Page.step (Page.run groupingSession
               (Page.ToggleClick (Session.id groupingSession)
                  :: replicate 3 Page.AdvanceClick)
               Page.initial)
  = Z.of_nat 3.
Proof.
  apply (clicks_reveal groupingSession 3). vm_compute. discriminate.
Defined.

Lemma omap_imap_Some {A B} (l : list A) :
  forall h : nat -> A -> B, omap id (imap (fun i x => Some (h i x)) l) = imap h l.
Proof.
  induction l as [|x l IH]; intros h; [reflexivity|].
  simpl. f_equal. apply (IH (h ∘ S)).
Qed.

Lemma omap_replicate_None {A} (n : nat) : omap id (replicate n (@None A)) = [].
Proof. induction n as [|n IH]; [reflexivity|exact IH]. Qed.

(** X5.  At step [step] the card shows exactly the first [step] items of the
    sequence, the last of them emphasized and the others dimmed, and nothing
    of the remaining items: the counter "step/totalSteps" is the number of
    items on display. *)
Theorem visible_items (session : Session.t) (articles : list Article.t) (step : Z) :
  0 <= step <= SessionCard.totalSteps session ->
  let items := buildRevealItems session in
  let shown := Z.to_nat step in
  Controls.rendered session articles step
  = imap (fun idx item =>
            Some (if Z.of_nat idx =? step - 1 then Emphasized else Dimmed,
                  itemView session articles item))
         (take shown items)
    ++ replicate (List.length items - shown) None
  /\ Z.of_nat (List.length (omap id (Controls.rendered session articles step))) = step.
Proof.
  intros Hstep items shown.
  assert (Hshown : (shown <= List.length items)%nat)
    by (unfold shown, SessionCard.totalSteps, JS.len in *; fold items in Hstep; lia).
  assert (Hrendered :
            Controls.rendered session articles step
            = imap (fun idx item =>
                      Some (if Z.of_nat idx =? step - 1 then Emphasized else Dimmed,
                            itemView session articles item))
                   (take shown items)
              ++ replicate (List.length items - shown) None).
  { unfold Controls.rendered. fold items.
    rewrite <- (take_drop shown items) at 1. rewrite imap_app. f_equal.
    - apply imap_ext. intros i item Hi.
      apply lookup_lt_Some in Hi. rewrite length_take in Hi.
      unfold renderItem, isVisible, isCurrent.
      assert (Hvisible : (Z.of_nat i <? step) = true) by (apply Z.ltb_lt; lia).
      by rewrite Hvisible.
    - rewrite length_take, Nat.min_l by exact Hshown.
      rewrite <- (length_drop items shown).
      rewrite <- (const_fmap (fun _ : RevealItem => None)) by reflexivity.
      rewrite <- imap_const. apply imap_ext. intros i item _.
      unfold renderItem, isVisible.
      assert (Hhidden : (Z.of_nat (shown + i) <? step) = false)
        by (apply Z.ltb_ge; lia).
      by rewrite Hhidden. }
  split; [exact Hrendered|].
  rewrite Hrendered, omap_app, omap_replicate_None, app_nil_r.
  rewrite (omap_imap_Some (take shown items)
             (fun idx item => (if Z.of_nat idx =? step - 1 then Emphasized else Dimmed,
                               itemView session articles item))).
  rewrite length_imap, length_take. lia.
Qed.

Lemma visible_items_witness :
  Z.of_nat (List.length (omap id (Controls.rendered groupingSession [] 2))) = 2.
Proof.
  apply (visible_items groupingSession [] 2). vm_compute. split; discriminate.
Defined.

(** X6.  Within the bounds of the reveal state, a control is disabled or
    hidden exactly when its handler would change nothing: the advance button
    when [advance] is at its end, the back button when [goBack] is at its
    start, "Show all" when [revealAll] has nothing left to reveal.  The
    advance button reads "Complete" only when it is disabled; and on a card
    at step 0 it is never disabled, because no sequence is empty. *)
Theorem controls_match_handlers (totalSteps step : Z) :
  0 <= step <= totalSteps ->
  (Controls.advanceDisabled totalSteps step = true
   <-> SessionCard.advance totalSteps step = step)
  /\ (Controls.backDisabled step = true <-> SessionCard.goBack step = step)
  /\ (Controls.showAllShown totalSteps step = false
      <-> SessionCard.revealAll totalSteps step = step)
  /\ (Controls.advanceLabel totalSteps step = "Complete"
      -> Controls.advanceDisabled totalSteps step = true)
  /\ (forall session,
         totalSteps = SessionCard.totalSteps session ->
         Controls.advanceDisabled totalSteps 0 = false
         /\ Controls.advanceLabel totalSteps 0 = "Start").
Proof.
  intros Hstep.
  unfold Controls.advanceDisabled, Controls.backDisabled, Controls.showAllShown,
    Controls.advanceLabel, SessionCard.allRevealed, SessionCard.advance,
    SessionCard.goBack, SessionCard.revealAll.
  repeat split.
  - intros H. apply Z.leb_le in H. case_match; lia.
  - intros H. apply Z.leb_le. destruct (Z.ltb_spec step totalSteps); lia.
  - intros H. apply Z.eqb_eq in H. case_match; lia.
  - intros H. apply Z.eqb_eq. destruct (Z.ltb_spec 0 step); lia.
  - intros H. apply negb_false_iff, Z.leb_le in H. lia.
  - intros H. apply negb_false_iff, Z.leb_le. lia.
  - destruct (step =? 0); [discriminate|].
    by destruct (totalSteps <=? step).
  - subst totalSteps. apply Z.leb_gt. apply totalSteps_pos.
Qed.

Lemma controls_match_handlers_witness :
  Controls.advanceDisabled 5 5 = true <-> SessionCard.advance 5 5 = 5.
Proof.
  apply (controls_match_handlers 5 5). lia.
Defined.

(** ** The reveal sequence and the discussion points *)

(** X7.  The discussion-point items of the reveal sequence are numbered by
    their position: an item with text [text], index [index] and total [total]
    occurs exactly when [total] is the number of discussion points of the
    session, [0 <= index < total], and [text] is the point at position
    [index]. *)
Theorem discussion_point_numbering (session : Session.t)
        (text : string) (index total : Z) :
  let dps := orEmpty (Session.discussionPoints session) in
  In (DiscussionPoint text index total) (buildRevealItems session)
  <-> total = JS.len dps /\ 0 <= index < total /\ dps !! Z.to_nat index = Some text.
Proof.
  intros dps.
  assert (Hfilter : In (DiscussionPoint text index total) (buildRevealItems session)
                    <-> In (DiscussionPoint text index total)
                           (List.filter isDiscussionPoint (buildRevealItems session))).
  { rewrite List.filter_In. simpl. tauto. }
  rewrite Hfilter, (buildRevealItems_points session). fold dps.
  rewrite <- list_elem_of_In, elem_of_lookup_imap. split.
  - intros (i & text' & [= -> -> ->] & Hi).
    pose proof (lookup_lt_Some _ _ _ Hi). unfold JS.len.
    rewrite Nat2Z.id. split; [reflexivity|]. split; [lia|exact Hi].
  - intros (-> & Hindex & Hi). exists (Z.to_nat index), text.
    split; [|exact Hi]. f_equal. lia.
Qed.

(** ** Grouping: nothing is lost *)

Lemma strip_unnumbered (text : string) :
  Numbered.test text = false -> Numbered.strip text = text.
Proof. unfold Numbered.test, Numbered.strip. by destruct (Numbered.exec text). Qed.

Lemma collectChildren_texts (following : list string) :
  fst (collectChildren following)
  ++ match snd (collectChildren following) with
     | [] => []
     | next :: rest => next :: List.map Numbered.strip rest
     end
  = List.map Numbered.strip following.
Proof.
  induction following as [|next rest IH]; [reflexivity|].
  simpl. destruct (Numbered.test next) eqn:Hnext.
  - destruct (collectChildren rest) as [children remaining]. simpl in *.
    by rewrite IH.
  - simpl. by rewrite (strip_unnumbered next Hnext).
Qed.

(** X8.  Grouping loses and adds nothing: read in page order, the heads and
    children of the groups are the points of the list, the first as it is and
    every later one without its number (a later point that has no number is
    unchanged).  So the groups hold as many texts as there are points. *)
Theorem grouping_keeps_points (session : Session.t) (points : list string) :
  shownTexts (groupPoints session points)
  = match points with
    | [] => []
    | first :: rest => first :: List.map Numbered.strip rest
    end
  /\ List.length (shownTexts (groupPoints session points)) = List.length points.
Proof.
  assert (Htexts : shownTexts (groupPoints session points)
                   = match points with
                     | [] => []
                     | first :: rest => first :: List.map Numbered.strip rest
                     end).
  { induction points as [|point following IH] using group_rounds_ind; [reflexivity|].
    rewrite groupPoints_cons. unfold shownTexts in *. simpl. f_equal.
    rewrite IH. apply collectChildren_texts. }
  split; [exact Htexts|]. rewrite Htexts.
  destruct points as [|first rest]; [reflexivity|]. simpl. by rewrite length_map.
Qed.

(** ** The pattern of a numbered point *)

Lemma skipDigits_app (digits rest : string) :
  allDigits digits = true ->
  (forall c rest', rest = String c rest' -> JS.isDigit c = false) ->
  Numbered.skipDigits (digits ++ rest) = rest.
Proof.
  intros Hdigits Hrest. induction digits as [|c digits IH]; simpl in *.
  - destruct rest as [|c rest']; [reflexivity|].
    simpl. by rewrite (Hrest c rest' eq_refl).
  - apply andb_true_iff in Hdigits as [Hc Hdigits]. rewrite Hc. by apply IH.
Qed.

Lemma skipDigits_split (s : string) :
  exists digits,
    s = (digits ++ Numbered.skipDigits s)%string /\ allDigits digits = true.
Proof.
  induction s as [|c s (digits & Hs & Hdigits)]; simpl.
  - by exists "".
  - destruct (JS.isDigit c) eqn:Hc.
    + exists (String c digits). split.
      * change (String c s = String c (digits ++ Numbered.skipDigits s)).
        by rewrite <- Hs.
      * simpl. by rewrite Hc, Hdigits.
    + by exists "".
Qed.

(** X9.  The pattern [/^\d+\.\s/] matches a text exactly when the text is a
    non-empty run of digits, a dot, one white-space unit and a rest; the rest
    is what remains once the number is stripped, and a text the pattern does
    not match is left as it is. *)
Theorem numbered_pattern (text rest : string) :
  (Numbered.exec text = Some rest
   <-> exists digits w,
        text = (digits ++ String "." (String w rest))%string
        /\ digits <> ""
        /\ allDigits digits = true
        /\ JS.isSpace w = true)
  /\ (Numbered.exec text = Some rest ->
      Numbered.test text = true /\ Numbered.strip text = rest)
  /\ (Numbered.test text = false -> Numbered.strip text = text).
Proof.
  split; [|split].
  - split.
    + destruct text as [|c s]; [discriminate|]. simpl.
      destruct (JS.isDigit c) eqn:Hc; [|discriminate].
      destruct (skipDigits_split s) as (digits & Hs & Hdigits).
      destruct (Numbered.skipDigits s) as [|dot [|w rest']] eqn:Hskip; try discriminate.
      * destruct (Ascii.eqb_spec dot "."%char) as [->|Hdot].
        -- discriminate.
        -- destruct dot as [[] [] [] [] [] [] [] []]; discriminate.
      * destruct (Ascii.eqb_spec dot "."%char) as [->|Hdot].
        -- destruct (JS.isSpace w) eqn:Hw; [|discriminate].
           intros [= ->]. exists (String c digits), w.
           split; [rewrite Hs at 1; reflexivity|]. split; [discriminate|].
           split; [simpl; by rewrite Hc, Hdigits|exact Hw].
        -- destruct dot as [[] [] [] [] [] [] [] []]; try discriminate.
           by destruct Hdot.
    + intros (digits & w & -> & Hne & Hdigits & Hw).
      destruct digits as [|c digits]; [by destruct Hne|].
      simpl in *. apply andb_true_iff in Hdigits as [Hc Hdigits]. rewrite Hc.
      rewrite skipDigits_app; [by rewrite Hw|exact Hdigits|].
      intros c' rest' [= <- _]. reflexivity.
  - unfold Numbered.test, Numbered.strip. by intros ->.
  - apply strip_unnumbered.
Qed.

Lemma numbered_pattern_witness :
  Numbered.test "12. Listen first" = true
  /\ Numbered.strip "12. Listen first" = "Listen first".
Proof.
  apply (proj1 (proj2 (numbered_pattern "12. Listen first" "Listen first"))).
  reflexivity.
Defined.

(** X10.  Under the filter of the "metrics" view no point that is shown has
    a number or mentions "7 Tiny Daily Habits"; so every shown point is a
    group of its own, without children, and the groups are as many as the
    points that pass the filter. *)
Theorem metrics_view_flat (session : Session.t) :
  let shown := displayedPoints session (Some filterMetricsDiscussionPoints) in
  Forall (fun p => Numbered.test p = false
                   /\ JS.includes p "7 Tiny Daily Habits" = false
                   /\ In p (orEmpty (Session.discussionPoints session)))
         shown
  /\ List.map (fun g => (Grouped.point g, Grouped.children g))
              (groupPoints session shown)
     = List.map (fun p => (p, [])) shown.
Proof.
  intros shown.
  assert (Hshown : Forall (fun p => Numbered.test p = false
                                    /\ JS.includes p "7 Tiny Daily Habits" = false
                                    /\ In p (orEmpty (Session.discussionPoints session)))
                          shown).
  { unfold shown, displayedPoints.
    destruct (Session.discussionPoints session) as [dps|]; [|constructor].
    apply List.Forall_forall. intros p Hp. apply List.filter_In in Hp as [Hin Hkeep].
    unfold filterMetricsDiscussionPoints in Hkeep.
    destruct (JS.includes p "7 Tiny Daily Habits"); [discriminate|].
    destruct (Numbered.test p); [discriminate|]. by repeat split. }
  split; [exact Hshown|].
  rewrite groupPoints_unnumbered.
  - rewrite List.map_map. reflexivity.
  - eapply List.Forall_impl; [|exact Hshown]. simpl. tauto.
Qed.

(** ** Articles of a session, sessions of an article *)

Lemma getArticleById_Some (articles : list Article.t) (id : Z) (a : Article.t) :
  getArticleById articles id = Some a -> In a articles /\ Article.number a = id.
Proof.
  unfold getArticleById. intros Hfind.
  apply List.find_some in Hfind as [Hin Hnumber].
  split; [exact Hin|]. by apply Z.eqb_eq.
Qed.

Lemma getArticleById_unique (articles : list Article.t) (a : Article.t) :
  UniqueNumbers articles -> In a articles ->
  getArticleById articles (Article.number a) = Some a.
Proof.
  unfold UniqueNumbers, getArticleById.
  induction articles as [|b articles IH]; intros Hunique Hin; [by destruct Hin|].
  simpl in *. apply NoDup_cons_iff in Hunique as [Hfresh Hunique].
  destruct (Z.eqb_spec (Article.number b) (Article.number a)) as [Heq|Hne].
  - destruct Hin as [->|Hin]; [reflexivity|].
    destruct Hfresh. rewrite Heq. by apply in_map.
  - destruct Hin as [->|Hin]; [by destruct Hne|]. by apply IH.
Qed.

Lemma length_omap_le {A B} (f : A -> option B) (l : list A) :
  (List.length (omap f l) <= List.length l)%nat.
Proof.
  induction l as [|x l IH]; [reflexivity|].
  change (omap f (x :: l))
    with (match f x with Some y => y :: omap f l | None => omap f l end).
  destruct (f x); simpl; lia.
Qed.

(** X11.  The article cards of a session show only articles that exist and
    that the session refers to, in the order of the references; a reference
    to an article that does not exist is skipped, and every reference to one
    that exists yields a card. *)
Theorem article_cards_found (articles : list Article.t) (ids : list Z) :
  let cards := omap (getArticleById articles) ids in
  (forall a, In a cards -> In a articles /\ In (Article.number a) ids)
  /\ (List.length cards <= List.length ids)%nat
  /\ List.map Article.number cards
     = List.filter (fun id => Arr.includes (List.map Article.number articles) id) ids.
Proof.
  intros cards. split; [|split].
  - intros a Ha. apply list_elem_of_In, list_elem_of_omap in Ha as (id & Hid & Hfind).
    apply getArticleById_Some in Hfind as [Hin <-].
    split; [exact Hin|]. by apply list_elem_of_In.
  - apply length_omap_le.
  - unfold cards. induction ids as [|id ids IH]; [reflexivity|].
    change (omap (getArticleById articles) (id :: ids))
      with (match getArticleById articles id with
            | Some a => a :: omap (getArticleById articles) ids
            | None => omap (getArticleById articles) ids
            end).
    cbn [List.filter].
    destruct (getArticleById articles id) as [a|] eqn:Hfind.
    + apply getArticleById_Some in Hfind as [Hin Hnumber].
      assert (Hincl : Arr.includes (List.map Article.number articles) id = true).
      { apply existsb_exists. exists (Article.number a).
        split; [by apply in_map|]. apply Z.eqb_eq. lia. }
      rewrite Hincl. cbn [List.map]. by rewrite IH, Hnumber.
    + assert (Hincl : Arr.includes (List.map Article.number articles) id = false).
      { apply not_true_is_false. intros Hincl.
        apply existsb_exists in Hincl as (n & Hn & Heq).
        apply Z.eqb_eq in Heq. subst n.
        apply in_map_iff in Hn as (a & Hnumber & Hin).
        unfold getArticleById in Hfind.
        pose proof (List.find_none _ _ Hfind a Hin) as Hno. simpl in Hno.
        apply Z.eqb_neq in Hno. lia. }
      by rewrite Hincl.
Qed.

Lemma library_unique : UniqueNumbers library.
Proof.
  unfold UniqueNumbers. simpl. repeat constructor; simpl; intuition discriminate.
Qed.

(** ** The article page: neighbours and related articles *)

Lemma findIndexFrom_lookup (all : list Article.t) (i : nat) (a : Article.t) (k : Z) :
  UniqueNumbers all -> all !! i = Some a ->
  Arr.findIndexFrom (fun b => Article.number b =? Article.number a) k all
  = k + Z.of_nat i.
Proof.
  unfold UniqueNumbers. revert i k.
  induction all as [|b all IH]; intros i k Hunique Hlookup; [discriminate|].
  simpl in Hunique. apply NoDup_cons_iff in Hunique as [Hfresh Hunique].
  destruct i as [|i]; simpl in *.
  - injection Hlookup as ->. rewrite Z.eqb_refl. lia.
  - destruct (Z.eqb_spec (Article.number b) (Article.number a)) as [Heq|Hne].
    + destruct Hfresh. rewrite Heq. apply in_map.
      apply list_elem_of_In. by eapply list_elem_of_lookup_2.
    + rewrite (IH i (k + 1)); [lia|exact Hunique|exact Hlookup].
Qed.

Lemma currentIndex_lookup (all : list Article.t) (i : nat) (a : Article.t) :
  UniqueNumbers all -> all !! i = Some a ->
  ArticleDetail.currentIndex all a = Z.of_nat i.
Proof.
  intros Hunique Hlookup. unfold ArticleDetail.currentIndex, Arr.findIndex.
  rewrite (findIndexFrom_lookup all i a 0 Hunique Hlookup). lia.
Qed.

Lemma prevArticle_lookup (all : list Article.t) (i : nat) (a : Article.t) :
  UniqueNumbers all -> all !! i = Some a ->
  ArticleDetail.prevArticle all a
  = match i with O => None | S j => all !! j end.
Proof.
  intros Hunique Hlookup. unfold ArticleDetail.prevArticle.
  rewrite (currentIndex_lookup all i a Hunique Hlookup).
  destruct i as [|j].
  - reflexivity.
  - destruct (Z.ltb_spec 0 (Z.of_nat (S j))) as [_|Hle]; [|lia].
    unfold Arr.get.
    destruct (Z.ltb_spec (Z.of_nat (S j) - 1) 0) as [Hlt|_]; [lia|].
    f_equal. lia.
Qed.

Lemma nextArticle_lookup (all : list Article.t) (i : nat) (a : Article.t) :
  UniqueNumbers all -> all !! i = Some a ->
  ArticleDetail.nextArticle all a = all !! S i.
Proof.
  intros Hunique Hlookup. unfold ArticleDetail.nextArticle.
  rewrite (currentIndex_lookup all i a Hunique Hlookup).
  unfold JS.len.
  destruct (Z.ltb_spec (Z.of_nat i) (Z.of_nat (List.length all) - 1)) as [Hlt|Hge].
  - unfold Arr.get.
    destruct (Z.ltb_spec (Z.of_nat i + 1) 0) as [Hneg|_]; [lia|].
    f_equal. lia.
  - symmetry. apply lookup_ge_None. lia.
Qed.

(** X13.  Neighbours on the article page.  When no two articles carry the
    same number, the page of the article at position [i] of the library finds
    that article again from its number, offers as previous article the one at
    position [i - 1] (none for the first) and as next article the one at
    position [i + 1] (none for the last); and the two links undo each other:
    the previous article of the next article, and the next article of the
    previous one, is the article itself. *)
Theorem article_neighbours (all : list Article.t) (i : nat) (a : Article.t) :
  UniqueNumbers all -> all !! i = Some a ->
  ArticleDetail.foundArticle all (Article.number a) = Some a
  /\ ArticleDetail.prevArticle all a = match i with O => None | S j => all !! j end
  /\ ArticleDetail.nextArticle all a = all !! S i
  /\ (forall b, ArticleDetail.nextArticle all a = Some b ->
                ArticleDetail.prevArticle all b = Some a)
  /\ (forall b, ArticleDetail.prevArticle all a = Some b ->
                ArticleDetail.nextArticle all b = Some a).
Proof.
  intros Hunique Hlookup.
  pose proof (prevArticle_lookup all i a Hunique Hlookup) as Hprev.
  pose proof (nextArticle_lookup all i a Hunique Hlookup) as Hnext.
  split; [|split; [exact Hprev|split; [exact Hnext|split]]].
  - apply (getArticleById_unique all a Hunique).
    apply list_elem_of_In. by eapply list_elem_of_lookup_2.
  - intros b Hb. rewrite Hnext in Hb.
    rewrite (prevArticle_lookup all (S i) b Hunique Hb). exact Hlookup.
  - intros b Hb. rewrite Hprev in Hb. destruct i as [|j]; [discriminate|].
    rewrite (nextArticle_lookup all j b Hunique Hb). exact Hlookup.
Qed.

Lemma article_neighbours_witness :
  ArticleDetail.foundArticle library 7
  = Some (articleWith 7 "Candour" ["trust"; "feedback"])
  /\ ArticleDetail.prevArticle library (articleWith 7 "Candour" ["trust"; "feedback"])
     = Some (articleWith 4 "Listening" ["trust"])
  /\ ArticleDetail.nextArticle library (articleWith 7 "Candour" ["trust"; "feedback"])
     = Some (articleWith 9 "Metrics" ["goals"]).
Proof.
  destruct (article_neighbours library 1 (articleWith 7 "Candour" ["trust"; "feedback"])
              library_unique eq_refl) as (Hfound & Hprev & Hnext & _).
  split; [exact Hfound|]. split; [exact Hprev|exact Hnext].
Defined.

Lemma sublist_filter_list {A} (p : A -> bool) (l : list A) :
  sublist (List.filter p l) l.
Proof.
  induction l as [|x l IH]; simpl; [constructor|].
  destruct (p x); by constructor.
Qed.

(** X14.  Related articles on the article page: at most three are listed;
    each is an article of the library other than the one shown that shares a
    session with it; they keep the order of the library; and an article that
    belongs to no session has no related articles. *)
Theorem related_articles (all : list Article.t) (article : Article.t) :
  let related := ArticleDetail.relatedArticles all article in
  (List.length related <= 3)%nat
  /\ sublist related all
  /\ (forall b, In b related ->
        In b all
        /\ Article.number b <> Article.number article
        /\ exists s, In s (Article.sessions b) /\ In s (Article.sessions article))
  /\ (Article.sessions article = [] -> related = []).
Proof.
  intros related. unfold related, ArticleDetail.relatedArticles, Arr.slice0.
  split; [|split; [|split]].
  - rewrite length_firstn. lia.
  - etransitivity; [apply sublist_take|]. apply sublist_filter_list.
  - intros b Hb. apply list_elem_of_In in Hb.
    apply (fun H => elem_of_sublist _ _ _ H (sublist_take _ 3)) in Hb.
    apply list_elem_of_In, List.filter_In in Hb as [Hin Hcond].
    apply andb_true_iff in Hcond as [Hother Hshares].
    split; [exact Hin|]. split.
    + apply negb_true_iff, Z.eqb_neq in Hother. exact Hother.
    + unfold ArticleDetail.sharesSession in Hshares.
      apply existsb_exists in Hshares as (s & Hs & Hincl).
      exists s. split; [exact Hs|].
      unfold Arr.includesStr in Hincl.
      apply existsb_exists in Hincl as (s' & Hs' & Heq).
      apply String.eqb_eq in Heq. by subst s'.
  - intros Hnone.
    replace (List.filter _ all) with (@nil Article.t); [reflexivity|].
    symmetry. rewrite <- (map_id all). apply filter_map_none. intros b.
    unfold ArticleDetail.sharesSession. rewrite Hnone.
    rewrite andb_false_iff. right.
    induction (Article.sessions b) as [|s l IH]; [reflexivity|exact IH].
Qed.

Lemma prefix_hyphen (c : ascii) (s : string) :
  String.prefix "-" (String c s) = if Ascii.eqb c "-" then true else false.
Proof.
  cbn [String.prefix].
  destruct (ascii_dec "-" c) as [<-|Hne].
  - by destruct s.
  - destruct (Ascii.eqb_spec c "-") as [->|_]; [by destruct Hne|reflexivity].
Qed.

(** X15.  The key under which the relevance of an article for a session is
    looked up replaces only the first hyphen of the session id by an
    underscore: an id without a hyphen is its own key, and in an id with
    hyphens everything after the first one, further hyphens included, is
    kept as it is. *)
Theorem relevance_key_first_hyphen (a : string) :
  JS.includes a "-" = false ->
  ArticleDetail.relevanceKey a = a
  /\ forall b, ArticleDetail.relevanceKey (a ++ "-" ++ b)%string
               = (a ++ "_" ++ b)%string.
Proof.
  unfold ArticleDetail.relevanceKey.
  induction a as [|c a IH]; intros Hfree.
  - split; [reflexivity|]. intros b.
    change (JS.replace (String "-" b) "-" "_" = String "_" b).
    cbn [JS.replace]. rewrite prefix_hyphen. reflexivity.
  - cbn [JS.includes] in Hfree. rewrite prefix_hyphen in Hfree.
    destruct (Ascii.eqb c "-") eqn:Hc; [discriminate|].
    simpl in Hfree. destruct (IH Hfree) as [IHa IHb]. split.
    + cbn [JS.replace]. rewrite prefix_hyphen, Hc. by rewrite IHa.
    + intros b.
      change (String c a ++ "-" ++ b)%string with (String c (a ++ "-" ++ b)%string).
      change (String c a ++ "_" ++ b)%string with (String c (a ++ "_" ++ b)%string).
      cbn [JS.replace]. rewrite prefix_hyphen, Hc. by rewrite IHb.
Qed.

Lemma relevance_key_first_hyphen_witness :
  ArticleDetail.relevanceKey "day1" = "day1"
  /\ ArticleDetail.relevanceKey "day1-session-2" = "day1_session-2".
Proof.
  destruct (relevance_key_first_hyphen "day1" eq_refl) as [Hsame Hfirst].
  split; [exact Hsame|exact (Hfirst "session-2")].
Defined.

(** ** The curriculum page: which sessions get a card *)

Lemma filter_filter_and {A} (p q : A -> bool) (l : list A) :
  List.filter p (List.filter q l) = List.filter (fun x => q x && p x) l.
Proof.
  induction l as [|x l IH]; [reflexivity|].
  simpl. destruct (q x); simpl; [destruct (p x)|]; by rewrite IH.
Qed.

Lemma filter_split_Permutation {A} (p q : A -> bool) (l : list A) :
  (forall x, p x = true -> q x = false) ->
  Permutation (List.filter p l ++ List.filter q l)
              (List.filter (fun x => p x || q x) l).
Proof.
  intros Hdisjoint. induction l as [|x l IH]; [constructor|].
  simpl. destruct (p x) eqn:Hp; simpl.
  - rewrite (Hdisjoint x Hp). by constructor.
  - destruct (q x); [|exact IH].
    etransitivity; [symmetry; apply Permutation_middle|]. by constructor.
Qed.

Lemma isCognizance_true (s : Session.t) :
  Curriculum.isCognizance s = true <-> Session.fourC s = Cognizance.
Proof.
  unfold Curriculum.isCognizance. by destruct (Session.fourC s).
Qed.

Lemma filteredNonCognizance_filter (filter : string) (sessions : list Session.t) :
  Curriculum.filteredNonCognizance filter sessions
  = List.filter (fun s => negb (Curriculum.isCognizance s)
                          && (String.eqb filter "All"
                              || String.eqb (Curriculum.fourCName (Session.fourC s))
                                            filter))
                sessions.
Proof.
  unfold Curriculum.filteredNonCognizance, Curriculum.nonCognizanceSessions.
  destruct (String.eqb filter "All").
  - apply List.filter_ext. intros s. simpl. by rewrite andb_true_r.
  - by rewrite filter_filter_and.
Qed.

(** X16.  The cards of the curriculum page.  Under every filter the cards
    are, each as often as it occurs in the loaded data, the sessions that are
    not of the category Cognizance, that match the filter (every category
    under "All") and that are scheduled on day 1 or day 2; a session of any
    other day gets no card.  The filter "Cognizance" leaves no card at all,
    and the grid is shown exactly under "All" and "Cognizance" when the data
    has a Cognizance session. *)
Theorem curriculum_cards (filter : string) (sessions : list Session.t) :
  Permutation (Curriculum.cards filter sessions)
              (List.filter (shownAsCard filter) sessions)
  /\ (forall s, In s (Curriculum.cards filter sessions) <->
        In s sessions
        /\ Session.fourC s <> Cognizance
        /\ (filter = "All" \/ Curriculum.fourCName (Session.fourC s) = filter)
        /\ (Session.day s = 1 \/ Session.day s = 2))
  /\ Curriculum.cards "Cognizance" sessions = []
  /\ (Curriculum.gridShown filter sessions = true <->
        (filter = "All" \/ filter = "Cognizance")
        /\ exists s, In s sessions /\ Session.fourC s = Cognizance).
Proof.
  assert (Hperm : Permutation (Curriculum.cards filter sessions)
                              (List.filter (shownAsCard filter) sessions)).
  { unfold Curriculum.cards. rewrite filteredNonCognizance_filter.
    rewrite !filter_filter_and.
    etransitivity.
    - apply filter_split_Permutation. intros s Hs.
      apply andb_true_iff in Hs as [_ Hday]. apply Z.eqb_eq in Hday.
      rewrite Hday. simpl. by rewrite andb_false_r.
    - erewrite List.filter_ext; [reflexivity|].
      intros s. unfold shownAsCard. simpl.
      destruct (negb (Curriculum.isCognizance s) && _); simpl; [reflexivity|].
      reflexivity. }
  split; [exact Hperm|]. split; [|split].
  - intros s. rewrite (Permutation_in' eq_refl Hperm).
    rewrite List.filter_In. unfold shownAsCard.
    rewrite !andb_true_iff, !orb_true_iff, negb_true_iff, !Z.eqb_eq.
    rewrite !String.eqb_eq.
    rewrite <- not_true_iff_false, isCognizance_true.
    rewrite (and_assoc (In s sessions)). tauto.
  - unfold Curriculum.cards. rewrite filteredNonCognizance_filter.
    replace (List.filter _ sessions) with (@nil Session.t); [reflexivity|].
    symmetry. rewrite <- (map_id sessions). apply filter_map_none.
    intros s. simpl. unfold Curriculum.isCognizance.
    by destruct (Session.fourC s).
  - unfold Curriculum.gridShown, Curriculum.showCognizanceGrid,
      Curriculum.cognizanceSessions, JS.len.
    rewrite andb_true_iff, orb_true_iff, !String.eqb_eq, Z.ltb_lt.
    split.
    + intros [Hfilter Hlen]. split; [exact Hfilter|].
      destruct (List.filter Curriculum.isCognizance sessions) as [|s l] eqn:Hcog;
        [simpl in Hlen; lia|].
      exists s. rewrite <- isCognizance_true. apply List.filter_In.
      rewrite Hcog. by left.
    + intros [Hfilter (s & Hs & Hcog)]. split; [exact Hfilter|].
      assert (Hin : In s (List.filter Curriculum.isCognizance sessions)).
      { apply List.filter_In. split; [exact Hs|]. by apply isCognizance_true. }
      destruct (List.filter Curriculum.isCognizance sessions); [destruct Hin|].
      simpl. lia.
Qed.

(** ** The grid: clicks and scroll requests *)

Lemma grid_cells_open (idx : nat) (cell : string * CognizanceSection) :
  GRID_CELLS !! idx = Some cell -> Grid.isGrid (snd cell) = false.
Proof.
  intros Hcell.
  do 15 (destruct idx as [|idx]; [by injection Hcell as <-|]).
  discriminate.
Qed.

(** X17.  Clicks in the Cognizance grid.  A click either changes nothing and
    asks for nothing, or it moves between the grid and a section view and
    asks for exactly one scroll; so no click leads from one section view
    straight to another.  Every cell of the grid opens a section view, and
    every section view is opened by some cell. *)
Theorem grid_clicks (c : Grid.Click) (activeSection : CognizanceSection) :
  (Grid.click c activeSection = (activeSection, [])
   \/ (snd (Grid.click c activeSection) = [Grid.ScrollIntoView]
       /\ Grid.isGrid (fst (Grid.click c activeSection))
          = negb (Grid.isGrid activeSection)))
  /\ (forall idx cell, GRID_CELLS !! idx = Some cell ->
        Grid.click (Grid.CellClick idx) grid = (snd cell, [Grid.ScrollIntoView])
        /\ snd cell <> grid)
  /\ (activeSection <> grid ->
        exists idx, Grid.click (Grid.CellClick idx) grid
                    = (activeSection, [Grid.ScrollIntoView])).
Proof.
  split; [|split].
  - destruct c as [idx|].
    + unfold Grid.click. destruct (Grid.isGrid activeSection) eqn:Hgrid; [|by left].
      destruct (GRID_CELLS !! idx) as [cell|] eqn:Hcell; [|by left].
      right. split; [reflexivity|]. simpl. by apply grid_cells_open in Hcell.
    + destruct activeSection; simpl; auto.
  - intros idx cell Hcell. simpl. rewrite Hcell. split; [reflexivity|].
    apply grid_cells_open in Hcell. intros Heq. by rewrite Heq in Hcell.
  - intros Hsection. destruct activeSection.
    + by destruct Hsection.
    + by exists 0%nat.
    + by exists 1%nat.
    + by exists 3%nat.
    + by exists 5%nat.
    + by exists 9%nat.
    + by exists 13%nat.
    + by exists 14%nat.
Qed.

Lemma grid_clicks_witness :
  exists idx, Grid.click (Grid.CellClick idx) grid = (budget, [Grid.ScrollIntoView]).
Proof.
  destruct (grid_clicks Grid.BackClick budget) as (_ & _ & Hopen).
  apply Hopen. discriminate.
Defined.

(** ** The two presentations of a session *)

Lemma blockKinds (session : Session.t) (articles : list Article.t)
      (filterDiscussionPoints : option (string -> bool)) :
  omap blockKind (contentBlocks session articles filterDiscussionPoints)
  = match shownDescription session with Some _ => [KDescription] | None => [] end
    ++ (if 0 <? JS.len (Session.coreTopics session) then [KCoreTopics] else [])
    ++ (if 0 <? JS.len (displayedPoints session filterDiscussionPoints)
        then [KDiscussion] else [])
    ++ (if 0 <? JS.len (orEmpty (Session.introspections session))
        then [KIntrospection] else [])
    ++ (if 0 <? JS.len (orEmpty (Session.resources session))
        then [KResources] else [])
    ++ (if Session.hasContent session && (0 <? JS.len (Session.articles session))
        then [KArticles] else []).
Proof.
  unfold contentBlocks, shownDescription. rewrite !omap_app.
  change (omap blockKind [HeaderBlock (Session.name session) (Session.time session)])
    with (@nil Kind).
  rewrite app_nil_l.
  f_equal; [by repeat case_match|].
  f_equal; [by repeat case_match|].
  f_equal; [by repeat case_match|].
  f_equal; [by destruct (Session.introspections session) as [intros|];
              [simpl; case_match|]|].
  f_equal; [by destruct (Session.resources session) as [res|];
              [simpl; case_match|]|].
  rewrite <- (app_nil_r (if Session.hasContent session
                               && (0 <? JS.len (Session.articles session))
                            then [KArticles] else [])).
  f_equal; by repeat case_match.
Qed.

Lemma map_itemKind_points (dps : list string) (total : Z) :
  forall k : nat,
    List.map itemKind
      (imap (fun i text => DiscussionPoint text (Z.of_nat (k + i)) total) dps)
    = replicate (List.length dps) KDiscussion.
Proof.
  induction dps as [|text dps IH]; intros k; [reflexivity|].
  simpl. f_equal. rewrite <- (IH (S k)). f_equal.
  apply imap_ext. intros i x _. simpl. do 2 f_equal. lia.
Qed.

Lemma revealKinds (session : Session.t) :
  List.map itemKind (buildRevealItems session)
  = match shownDescription session with Some _ => [KDescription] | None => [] end
    ++ [KCoreTopics]
    ++ replicate (List.length (orEmpty (Session.discussionPoints session))) KDiscussion
    ++ replicate (List.length (orEmpty (Session.introspections session))) KIntrospection
    ++ (if 0 <? JS.len (orEmpty (Session.resources session))
        then [KResources] else [])
    ++ (if 0 <? JS.len (Session.articles session) then [KArticles] else []).
Proof.
  rewrite buildRevealItems_closed. unfold sequenceWith.
  rewrite !List.map_app.
  f_equal; [by destruct (shownDescription session)|].
  f_equal. f_equal; [apply (map_itemKind_points _ _ 0)|].
  f_equal; [|f_equal; by case_match].
  induction (orEmpty (Session.introspections session)) as [|x l IH]; [reflexivity|].
  simpl. by rewrite IH.
Qed.

Lemma In_replicate {A} (n : nat) (x y : A) :
  In y (replicate n x) <-> y = x /\ n <> 0%nat.
Proof. rewrite <- list_elem_of_In. apply elem_of_replicate. Qed.

Lemma In_guarded {A} (guard : bool) (x y : A) :
  In y (if guard then [x] else []) <-> y = x /\ guard = true.
Proof. destruct guard; simpl; intuition congruence. Qed.

Lemma len_filter_pos {A} (p : A -> bool) (l : list A) :
  0 < JS.len (List.filter p l) -> l <> [].
Proof. intros Hlen ->. unfold JS.len in Hlen. simpl in Hlen. lia. Qed.

(** X18.  The static display of a session (used in the Cognizance grid) and
    the step-by-step card agree on what a session consists of.  The display
    shows its blocks in the order of the reveal sequence, each kind at most
    once; every kind of block it shows is also a kind of item of the reveal
    sequence; it never shows the article cards together with the notice for
    a session without articles; and, when no filter is passed, the only
    kinds of item the card reveals and the display leaves out are the core
    topics of a session without topics and the articles of a session marked
    as having no content. *)
Theorem display_within_reveal (session : Session.t) (articles : list Article.t)
        (filterDiscussionPoints : option (string -> bool)) :
  let blocks := contentBlocks session articles filterDiscussionPoints in
  sublist (omap blockKind blocks)
          [KDescription; KCoreTopics; KDiscussion; KIntrospection; KResources; KArticles]
  /\ (forall k, In k (omap blockKind blocks) ->
                In k (List.map itemKind (buildRevealItems session)))
  /\ (forall found reason,
        ~ (In (ArticlesBlock found) blocks /\ In (EmptyNoticeBlock reason) blocks))
  /\ (forall k, In k (List.map itemKind (buildRevealItems session)) ->
        In k (omap blockKind (contentBlocks session articles None))
        \/ (k = KCoreTopics /\ Session.coreTopics session = [])
        \/ (k = KArticles /\ Session.hasContent session = false)).
Proof.
  intros blocks. unfold blocks. split; [|split; [|split]].
  - rewrite blockKinds.
    change [KDescription; KCoreTopics; KDiscussion; KIntrospection; KResources; KArticles]
      with ([KDescription] ++ [KCoreTopics] ++ [KDiscussion] ++ [KIntrospection]
            ++ [KResources] ++ [KArticles]).
    repeat apply sublist_app; repeat case_match;
      solve [reflexivity | apply sublist_nil_l].
  - intros k. rewrite blockKinds, revealKinds.
    rewrite !in_app_iff, !In_guarded, !In_replicate.
    intros [Hk|[Hk|[Hk|[Hk|[Hk|Hk]]]]].
    + by left.
    + right. left. left. by destruct Hk.
    + right. right. left. destruct Hk as [-> Hlen]. split; [reflexivity|].
      apply Z.ltb_lt in Hlen. unfold displayedPoints in Hlen.
      destruct (Session.discussionPoints session) as [dps|];
        [|unfold JS.len in Hlen; simpl in Hlen; lia].
      simpl. destruct filterDiscussionPoints as [f|].
      * apply len_filter_pos in Hlen. by destruct dps.
      * unfold JS.len in Hlen. destruct dps; [simpl in Hlen; lia|discriminate].
    + right. right. right. left. destruct Hk as [-> Hlen]. split; [reflexivity|].
      apply Z.ltb_lt in Hlen. unfold JS.len in Hlen.
      destruct (orEmpty (Session.introspections session));
        [simpl in Hlen; lia|discriminate].
    + right. right. right. right. by left.
    + do 5 right. destruct Hk as [-> Hguard].
      apply andb_true_iff in Hguard as [_ Hlen]. by split.
  - intros found reason [Hcards Hnotice]. unfold contentBlocks in Hcards, Hnotice.
    destruct (Session.hasContent session) eqn:Hhas.
    + repeat (apply in_app_or in Hnotice as [Hnotice|Hnotice];
              [repeat case_match; simpl in Hnotice; intuition discriminate|]).
      simpl in Hnotice. destruct Hnotice.
    + repeat (apply in_app_or in Hcards as [Hcards|Hcards];
              [repeat case_match; simpl in Hcards; intuition discriminate|]).
      repeat case_match; simpl in Hcards; intuition discriminate.
  - intros k. rewrite blockKinds, revealKinds.
    rewrite !in_app_iff, !In_guarded, !In_replicate.
    unfold displayedPoints, JS.len. rewrite !Z.ltb_lt.
    intros [Hk|[Hk|[Hk|[Hk|[Hk|Hk]]]]].
    + left. by left.
    + simpl in Hk. destruct Hk as [<-|[]].
      destruct (Session.coreTopics session) as [|topic topics] eqn:Htopics.
      * right. left. by split.
      * left. right. left. split; [reflexivity|]. simpl. lia.
    + left. right. right. left. destruct Hk as [-> Hlen]. split; [reflexivity|].
      destruct (Session.discussionPoints session) as [[|dp dps]|];
        [by destruct Hlen|simpl; lia|by destruct Hlen].
    + left. right. right. right. left. destruct Hk as [-> Hlen].
      split; [reflexivity|].
      destruct (orEmpty (Session.introspections session)); [by destruct Hlen|].
      simpl. lia.
    + left. right. right. right. right. left. exact Hk.
    + destruct Hk as [-> Hlen].
      destruct (Session.hasContent session) eqn:Hhas.
      * left. do 5 right. split; [reflexivity|]. simpl. by apply Z.ltb_lt.
      * right. right. by split.
Qed.

(** ** The sessions of the Cognizance grid *)

Lemma getSession_Some (sessions : list Session.t) (id : string) (s : Session.t) :
  Sections.getSession sessions id = Some s -> In s sessions /\ Session.id s = id.
Proof.
  unfold Sections.getSession. intros Hfind.
  apply List.find_some in Hfind as [Hin Hid].
  split; [exact Hin|]. by apply String.eqb_eq.
Qed.

(** X19.  What the grid displays, composed with the page that mounts it on
    the Cognizance sessions.  A session displayed in a section view is a
    Cognizance session of the loaded data whose id is one of the nine ids the
    section views ask for; only the session "metrics" is displayed under a
    filter; the grid view itself displays no session.  Hence a Cognizance
    session under any other id is shown nowhere on the curriculum page:
    it gets no card under any filter and is displayed in no section. *)
Theorem grid_sessions (sessions : list Session.t) :
  (forall activeSection s f,
      In (s, f) (Sections.displayed (Curriculum.cognizanceSessions sessions)
                                    activeSection) ->
      In s sessions
      /\ Session.fourC s = Cognizance
      /\ In (Session.id s) Sections.knownIds
      /\ activeSection <> grid
      /\ (f = None \/ Session.id s = "metrics"))
  /\ (forall s, Session.fourC s = Cognizance ->
                ~ In (Session.id s) Sections.knownIds ->
                forall filter activeSection f,
                  ~ In s (Curriculum.cards filter sessions)
                  /\ ~ In (s, f) (Sections.displayed
                                    (Curriculum.cognizanceSessions sessions)
                                    activeSection)).
Proof.
  assert (Hshown : forall activeSection s f,
             In (s, f) (Sections.displayed (Curriculum.cognizanceSessions sessions)
                                           activeSection) ->
             In s sessions
             /\ Session.fourC s = Cognizance
             /\ In (Session.id s) Sections.knownIds
             /\ activeSection <> grid
             /\ (f = None \/ Session.id s = "metrics")).
  { intros activeSection s f Hin.
    apply list_elem_of_In, list_elem_of_omap in Hin as ([id f'] & Hreq & Hfound).
    simpl in Hfound.
    destruct (Sections.getSession _ id) as [s'|] eqn:Hget; [|discriminate].
    injection Hfound as -> ->.
    apply getSession_Some in Hget as [Hin Hid].
    apply List.filter_In in Hin as [Hin Hcog].
    apply isCognizance_true in Hcog.
    split; [exact Hin|]. split; [exact Hcog|].
    apply list_elem_of_In in Hreq. rewrite Hid.
    destruct activeSection; simpl in Hreq;
      repeat (destruct Hreq as [Hreq|Hreq]; [injection Hreq as <- <-|]);
      try (by destruct Hreq);
      (split; [simpl; tauto|split; [discriminate|auto]]). }
  split; [exact Hshown|].
  intros s Hcog Hstray filter activeSection f. split.
  - unfold Curriculum.cards, Curriculum.filteredNonCognizance,
      Curriculum.nonCognizanceSessions.
    apply isCognizance_true in Hcog.
    intros Hin. apply in_app_or in Hin.
    assert (Hnot : forall l, In s l ->
                   incl l (List.filter (fun s => negb (Curriculum.isCognizance s))
                                       sessions) -> False).
    { intros l Hl Hincl. apply Hincl, List.filter_In in Hl as [_ Hl].
      by rewrite Hcog in Hl. }
    destruct Hin as [Hin|Hin]; apply List.filter_In in Hin as [Hin _];
      (destruct (String.eqb filter "All");
       [eapply Hnot; [exact Hin|apply incl_refl]
       |eapply Hnot; [exact Hin|apply incl_filter]]).
  - intros Hin. apply Hshown in Hin as (_ & _ & Hknown & _). by apply Hstray.
Qed.

Lemma grid_sessions_witness :
  ~ In strayCognizanceSession (Curriculum.cards "All" [strayCognizanceSession])
  /\ ~ In (strayCognizanceSession, None)
          (Sections.displayed (Curriculum.cognizanceSessions [strayCognizanceSession])
                              culture).
Proof.
  destruct (grid_sessions [strayCognizanceSession]) as [_ Hstray].
  apply (Hstray strayCognizanceSession).
  - reflexivity.
  - simpl. intuition discriminate.
Defined.

(** ** Articles of a session and sessions of an article, both ways *)







(** ** The progress bar follows the step *)

Lemma width_gap_arith (a a' b m m' A B : Z) :
  0 <= a < a' -> 0 < b < 2 ^ 32 -> 0 < A -> 0 < B ->
  2 ^ 46 * Z.abs (m * b - 100 * a * A) <= b * A ->
  2 ^ 46 * Z.abs (m' * b - 100 * a' * B) <= b * B ->
  m * B < m' * A.
Proof.
  intros Ha Hb HA HB Hw Hw'.
  change (2 ^ 46) with 70368744177664 in *.
  change (2 ^ 32) with 4294967296 in *.
  assert (HAB : 0 < A * B) by (by apply Z.mul_pos_pos).
  assert (Hup : 70368744177664 * (m * b) * B
                <= (70368744177664 * 100 * a + b) * (A * B)).
  { replace ((70368744177664 * 100 * a + b) * (A * B))
      with ((70368744177664 * (100 * a * A) + b * A) * B) by ring.
    apply Z.mul_le_mono_nonneg_r; lia. }
  assert (Hlow : (70368744177664 * 100 * a' - b) * (A * B)
                 <= 70368744177664 * (m' * b) * A).
  { replace ((70368744177664 * 100 * a' - b) * (A * B))
      with ((70368744177664 * (100 * a' * B) - b * B) * A) by ring.
    apply Z.mul_le_mono_nonneg_r; lia. }
  assert (Hgap : (70368744177664 * 100 * a + b) * (A * B)
                 < (70368744177664 * 100 * a' - b) * (A * B))
    by (apply Z.mul_lt_mono_pos_r; lia).
  apply (Z.mul_lt_mono_pos_l (70368744177664 * b)); [lia|].
  replace (70368744177664 * b * (m * B)) with (70368744177664 * (m * b) * B) by ring.
  replace (70368744177664 * b * (m' * A)) with (70368744177664 * (m' * b) * A) by ring.
  lia.
Qed.

(** Two widths that are near [100 * a / b] and [100 * a' / b] with [a < a']
    are in that order, for a sequence of fewer than [2 ^ 32] items. *)
Lemma Within_lt (w w' : spec_float) (a a' b : Z) :
  0 <= a < a' -> 0 < b < 2 ^ 32 ->
  Within w (100 * a) b 46 -> Within w' (100 * a') b 46 ->
  (Binary64.toQ w < Binary64.toQ w')%Q.
Proof.
  intros Ha Hb Hw Hw'.
  destruct w' as [[]| | |[] m' e']; cbn [Within] in Hw'; try tauto.
  { change (2 ^ 46) with 70368744177664 in Hw'.
    change (2 ^ 32) with 4294967296 in Hb. lia. }
  destruct Hw' as [He' Hw'].
  pose proof (pow2_pos (- e') ltac:(lia)) as HB.
  rewrite (toQ_finite m' e' He').
  destruct w as [[]| | |[] m e]; cbn [Within] in Hw; try tauto.
  - reflexivity.
  - destruct Hw as [He Hw].
    pose proof (pow2_pos (- e) ltac:(lia)) as HA.
    rewrite (toQ_finite m e He).
    unfold Qlt. cbn [Qnum Qden]. rewrite !Z2Pos.id by assumption.
    by apply (width_gap_arith a a' b).
Qed.

(** X20.  The progress bar of a card follows the step, in the binary64
    numbers the page computes, for every sequence of fewer than [2 ^ 32]
    items (the bound of an array): the width is exactly 0 before the first
    item is revealed and exactly 100 when all are; its value grows strictly
    with every further item; and within the bounds it is 100 exactly in the
    state in which the advance button reads "Complete". *)
Theorem progress_follows_step (session : Session.t) :
  let totalSteps := SessionCard.totalSteps session in
  totalSteps < 2 ^ 32 ->
  Binary64.progressWidth totalSteps 0 = S754_zero false
  /\ Binary64.progressWidth totalSteps totalSteps = Binary64.ofZ 100
  /\ (forall step step',
        0 <= step < step' -> step' <= totalSteps ->
        (Binary64.toQ (Binary64.progressWidth totalSteps step)
         < Binary64.toQ (Binary64.progressWidth totalSteps step'))%Q)
  /\ (forall step,
        0 <= step <= totalSteps ->
        Binary64.progressWidth totalSteps step = Binary64.ofZ 100
        <-> Controls.advanceLabel totalSteps step = "Complete").
Proof.
  intros totalSteps Hbound. pose proof (totalSteps_pos session) as Hpos.
  fold totalSteps in Hpos.
  assert (H53 : totalSteps < 2 ^ 53).
  { change (2 ^ 32) with 4294967296 in Hbound.
    change (2 ^ 53) with 9007199254740992. lia. }
  assert (Hfull : Binary64.progressWidth totalSteps totalSteps = Binary64.ofZ 100).
  { unfold Binary64.progressWidth.
    destruct (Z.ltb_spec 0 totalSteps); [|lia].
    by rewrite SFdiv_same, SFmul_one_hundred by lia. }
  assert (Hgrows : forall step step',
             0 <= step < step' -> step' <= totalSteps ->
             (Binary64.toQ (Binary64.progressWidth totalSteps step)
              < Binary64.toQ (Binary64.progressWidth totalSteps step'))%Q).
  { intros step step' Hstep Hstep'.
    apply (Within_lt _ _ step step' totalSteps); [lia|lia| |];
      apply progressWidth_near; lia. }
  split; [|split; [exact Hfull|split; [exact Hgrows|]]].
  - unfold Binary64.progressWidth.
    destruct (Z.ltb_spec 0 totalSteps); [|lia].
    destruct (ofZ_pos totalSteps ltac:(lia)) as (m & e & -> & _).
    by rewrite ofZ_0, ofZ_100.
  - intros step Hstep. unfold Controls.advanceLabel, SessionCard.allRevealed.
    destruct (Z.eq_dec step totalSteps) as [->|Hne].
    + destruct (Z.eqb_spec totalSteps 0); [lia|].
      destruct (Z.leb_spec totalSteps totalSteps); [|lia]. by split.
    + assert (Hlt : (Binary64.toQ (Binary64.progressWidth totalSteps step)
                     < Binary64.toQ (Binary64.progressWidth totalSteps totalSteps))%Q)
        by (apply Hgrows; lia).
      split.
      * intros Heq. rewrite Heq, Hfull in Hlt. by apply Qlt_irrefl in Hlt.
      * destruct (Z.eqb_spec step 0); [discriminate|].
        destruct (Z.leb_spec totalSteps step); [lia|discriminate].
Qed.

Lemma progress_follows_step_witness :
  (Binary64.toQ (Binary64.progressWidth (SessionCard.totalSteps groupingSession) 1)
   < Binary64.toQ (Binary64.progressWidth (SessionCard.totalSteps groupingSession) 2))%Q.
Proof.
  destruct (progress_follows_step groupingSession) as (_ & _ & Hgrows & _).
  - reflexivity.
  - apply Hgrows; [lia|]. vm_compute. discriminate.
Defined.

(** ** Video links in the two presentations *)

Lemma numbered_not_video (text : string) :
  Numbered.test text = true -> isVideoBreak text = false.
Proof.
  unfold Numbered.test, Numbered.exec, isVideoBreak, JS.startsWith.
  destruct text as [|c text]; [discriminate|].
  destruct (JS.isDigit c) eqn:Hdigit; [|discriminate]. intros _.
  cbn [String.prefix]. destruct (ascii_dec "V" c) as [<-|_]; [discriminate|reflexivity].
Qed.

Lemma omap_cons {A B} (f : A -> option B) (x : A) (l : list A) :
  omap f (x :: l) = match f x with Some y => y :: omap f l | None => omap f l end.
Proof. reflexivity. Qed.

Lemma pointLink_numbered (session : Session.t) (text : string) :
  Numbered.test text = true -> pointLink session text = None.
Proof.
  intros Htest. unfold pointLink. by rewrite (numbered_not_video text Htest).
Qed.

Lemma omap_pointLink_unnumbered (session : Session.t) (points : list string) :
  omap (pointLink session) (List.filter unnumbered points)
  = omap (pointLink session) points.
Proof.
  induction points as [|text points IH]; [reflexivity|].
  cbn [List.filter]. unfold unnumbered at 1.
  destruct (Numbered.test text) eqn:Htest; cbn [negb].
  - by rewrite omap_cons, (pointLink_numbered session text Htest).
  - by rewrite !omap_cons, IH.
Qed.

Lemma groupLink_renderGroup (session : Session.t) (points : list string) :
  forall k : nat,
    omap groupLink
         (imap (fun gIdx item => renderGroup (Z.of_nat (k + gIdx)) item)
               (groupPoints session points))
    = omap (pointLink session) (List.map Grouped.point (groupPoints session points)).
Proof.
  induction points as [|point following IH] using group_rounds_ind; intros k;
    [reflexivity|].
  rewrite groupPoints_cons. cbn [imap List.map].
  assert (Htail : omap groupLink
                    (imap ((fun gIdx item => renderGroup (Z.of_nat (k + gIdx)) item) ∘ S)
                          (groupPoints session (snd (collectChildren following))))
                  = omap (pointLink session)
                      (List.map Grouped.point
                         (groupPoints session (snd (collectChildren following))))).
  { rewrite <- (IH (S k)). f_equal. apply imap_ext. intros i g _. simpl.
    do 2 f_equal. lia. }
  set (g := Grouped.mk point _ _ _).
  rewrite !omap_cons, Htail.
  replace (groupLink (renderGroup (Z.of_nat (k + 0)) g))
    with (pointLink session (Grouped.point g)); [reflexivity|].
  unfold pointLink, renderGroup, g. simpl.
  destruct (isVideoBreak point); [|reflexivity].
  by destruct (videoResource session point).
Qed.

Lemma itemLink_points (session : Session.t) (articles : list Article.t)
      (dps : list string) (total : Z) :
  forall k : nat,
    omap (fun item => itemLink (itemView session articles item))
         (imap (fun i text => DiscussionPoint text (Z.of_nat (k + i)) total) dps)
    = omap (pointLink session) dps.
Proof.
  induction dps as [|text dps IH]; intros k; [reflexivity|].
  cbn [imap].
  assert (Htail : omap (fun item => itemLink (itemView session articles item))
                    (imap ((fun i text => DiscussionPoint text (Z.of_nat (k + i)) total) ∘ S)
                          dps)
                  = omap (pointLink session) dps).
  { rewrite <- (IH (S k)). f_equal. apply imap_ext. intros i x _. simpl.
    do 2 f_equal. lia. }
  rewrite !omap_cons, Htail.
  replace (itemLink (itemView session articles
                       (DiscussionPoint text (Z.of_nat (k + 0)) total)))
    with (pointLink session text); [reflexivity|].
  unfold pointLink. simpl.
  destruct (isVideoBreak text); [|reflexivity].
  by destruct (videoResource session text).
Qed.

Lemma omap_none {A B} (f : A -> option B) (l : list A) :
  (forall x, In x l -> f x = None) -> omap f l = [].
Proof.
  intros Hnone. induction l as [|x l IH]; [reflexivity|].
  rewrite omap_cons, (Hnone x) by (by left).
  apply IH. intros y Hy. apply Hnone. by right.
Qed.

(** X21.  The two presentations of a session link the same videos: the
    external links among the discussion points of the static display, read
    in page order, are those among the items of the card's reveal sequence,
    with the same targets and texts.  (A point with a number is never a
    "Video Break:" point, so no link is lost among the children of a group.) *)
Theorem video_links_agree (session : Session.t) (articles : list Article.t) :
  omap groupLink (discussionPointsView session None)
  = omap (fun item => itemLink (itemView session articles item))
         (buildRevealItems session)
  /\ omap groupLink (discussionPointsView session None)
     = omap (pointLink session) (orEmpty (Session.discussionPoints session)).
Proof.
  assert (Hdisplay : omap groupLink (discussionPointsView session None)
                     = omap (pointLink session)
                            (orEmpty (Session.discussionPoints session))).
  { unfold discussionPointsView.
    rewrite (groupLink_renderGroup session _ 0), groupPoints_points.
    unfold displayedPoints.
    destruct (Session.discussionPoints session) as [[|first rest]|];
      [reflexivity| |reflexivity].
    cbn [orEmpty default].
    by rewrite !omap_cons, omap_pointLink_unnumbered. }
  split; [|exact Hdisplay].
  rewrite Hdisplay, buildRevealItems_closed. unfold sequenceWith.
  rewrite !omap_app.
  rewrite (itemLink_points session articles _ _ 0).
  assert (Hnone : forall items : list RevealItem,
             (forall item, In item items ->
                           match item with DiscussionPoint _ _ _ => False | _ => True end) ->
             omap (fun item => itemLink (itemView session articles item)) items = []).
  { intros items Hitems. apply omap_none. intros item Hitem.
    specialize (Hitems item Hitem).
    destruct item; try reflexivity; [destruct Hitems|].
    simpl. by destruct (Session.hasContent session). }
  rewrite (Hnone (match shownDescription session with
                  | Some text => [Description text] | None => [] end)).
  2:{ intros item Hitem. destruct (shownDescription session); [|destruct Hitem].
      by destruct Hitem as [<-|[]]. }
  rewrite (Hnone [CoreTopics (Session.coreTopics session)]).
  2:{ intros item Hitem. by destruct Hitem as [<-|[]]. }
  rewrite (Hnone (List.map IntrospectionBlock _)).
  2:{ intros item Hitem. by apply in_map_iff in Hitem as (x & <- & _). }
  rewrite (Hnone (if 0 <? JS.len (orEmpty (Session.resources session)) then _ else _)).
  2:{ intros item Hitem. case_match; [|destruct Hitem]. by destruct Hitem as [<-|[]]. }
  rewrite (Hnone (if 0 <? JS.len (Session.articles session) then _ else _)).
  2:{ intros item Hitem. case_match; [|destruct Hitem]. by destruct Hitem as [<-|[]]. }
  by rewrite !app_nil_r.
Qed.
